(** * MLCBridge: the streaming request/response adapter

    A shallow embedding of [Classes/MLCBridge.cpp]: the class
    [MLCEngineWrapper] and the three functions with C linkage,
    [mlc_llm_create_engine], [mlc_llm_generate], [mlc_llm_destroy_engine].

    - a [std::string] is a list of bytes ([list ascii]); an [int] or a
      [long long] is a [Z], no arithmetic being done on them;
    - a C string argument is [None] for the null pointer where the source
      tests for it ([prompt]), and a string where it does not
      ([model_path]);
    - the TVM engine is an external collaborator: each of its entry points
      either returns a value or throws a [std::exception];
    - the lookup of a method the engine does not have throws nothing and
      gives a null [PackedFunc]; a call of a null [PackedFunc] goes through
      a null pointer and is undefined behaviour;
    - the engine entry points that are invoked and the host callback
      invocations are recorded, in order, in a list of events;
    - wrappers live in a heap indexed by addresses; a handle is [None]
      (the null pointer) or [Some] address;
    - console logging ([std::cout], [std::cerr]) is left out. *)

From Stdlib Require Import ZArith NArith Ascii String List Bool Lia.
From stdpp Require Import base option list gmap.

Local Open Scope Z_scope.
Local Open Scope list_scope.

(** ** Byte strings *)

Definition std_string : Type := list ascii.

(** The bytes of a string literal. *)
Definition lit (s : string) : std_string := list_ascii_of_string s.

(** The double quote and the backslash. *)
Definition dq : ascii := "034"%char.
Definition bs : ascii := "092"%char.

(** The line feed that ends each line of a raw string literal. *)
Definition nl : ascii := "010"%char.

(** [starts_with needle s]: [needle] is a prefix of [s]. *)
Fixpoint starts_with (needle s : std_string) : bool :=
  match needle, s with
  | [], _ => true
  | _ :: _, [] => false
  | a :: needle', b :: s' => Ascii.eqb a b && starts_with needle' s'
  end.

(** [find_at needle s i]: the scan of [std::string::find], [s] being the
    part of the string that starts at index [i]. *)
Fixpoint find_at (needle s : std_string) (i : nat) : option nat :=
  if starts_with needle s then Some i
  else match s with
       | [] => None
       | _ :: s' => find_at needle s' (S i)
       end.

(** [std::string::find(needle, pos)]: the least index [>= pos] at which
    [needle] occurs, [None] standing for [npos]. *)
Definition find (s needle : std_string) (pos : nat) : option nat :=
  if (pos <=? length s)%nat then find_at needle (drop pos s) pos else None.

(** [std::string::substr(pos, n)]: at most [n] bytes from index [pos];
    [None] stands for the [std::out_of_range] thrown when [pos > size()]. *)
Definition substr (s : std_string) (pos n : nat) : option std_string :=
  if (pos <=? length s)%nat then Some (take n (drop pos s)) else None.

(** [std::string::empty()]. *)
Definition empty (s : std_string) : bool :=
  match s with [] => true | _ :: _ => false end.

(** [std::string::c_str()] as its callee reads it: the bytes before the
    first NUL. *)
Fixpoint c_str (s : std_string) : std_string :=
  match s with
  | [] => []
  | c :: s' => if Ascii.eqb c zero then [] else c :: c_str s'
  end.

(** ** [std::to_string] on integers *)

Definition digit_char (d : N) : ascii := ascii_of_N (48 + d).

(** The decimal digits of [n], most significant first, in front of [acc].
    Each round emits [n mod 10] and goes on with [n / 10]. *)
Fixpoint digits_of (fuel : nat) (n : N) (acc : std_string) : std_string :=
  match fuel with
  | O => acc
  | S fuel' =>
      let acc' := digit_char (n mod 10) :: acc in
      if (n / 10 =? 0)%N then acc' else digits_of fuel' (n / 10) acc'
  end.

(** A number below [2^k] has at most [k] decimal digits, at least one. *)
Definition to_string_N (n : N) : std_string :=
  digits_of (S (N.to_nat (N.log2 n))) n [].

(** [std::to_string(int)] and [std::to_string(long long)]: [%d]. *)
Definition to_string_Z (z : Z) : std_string :=
  if z <? 0 then "-"%char :: to_string_N (Z.to_N (- z))
  else to_string_N (Z.to_N z).

(** The number a decimal text stands for. *)
Definition decimal_value (s : std_string) : N :=
  fold_left (fun a c => (10 * a + (N_of_ascii c - 48))%N) s 0%N.

(** ** The engine, seen from the bridge *)

(** A call into the engine returns a value, or throws a
    [std::exception]. *)
Inductive Reply (A : Type) : Type :=
| Ok (a : A)
| Raise (what : string).
Arguments Ok {A} a.
Arguments Raise {A} what.

(** What a piece of the bridge does: it returns, it throws, or its
    behaviour is undefined (a call through a default-constructed
    [PackedFunc], the use of a pointer to no live object). *)
Inductive Outcome (A : Type) : Type :=
| Returns (a : A)
| Throws (what : string)
| Undefined.
Arguments Returns {A} a.
Arguments Throws {A} what.
Arguments Undefined {A}.

(** A host callback, a pointer to a function from a C string to void:
    the address of the function. *)
Definition FnPtr : Type := positive.

(** Arguments passed to the engine. *)
Inductive Arg : Type :=
| AInt (z : Z)
| AStr (s : std_string)
| AStreamCallback.

(** What the bridge does to the outside world, in order. *)
Inductive Event : Type :=
| EvCall (name : string) (args : list Arg)
| EvSink (callback : FnPtr) (token : std_string).

(** The JSON FFI engine module.  [GetFunction name] is the lookup of a
    method by name: it replies [true] when the module has a method of
    that name, and [false] when it has none, in which case the caller is
    handed a null [PackedFunc] and no exception is thrown.  The other
    fields are the methods themselves. *)
Record Module : Type := {
  GetFunction : string -> Reply bool;
  init_background_engine : Z -> Z -> Reply unit;
  reload : std_string -> Reply unit;
  chat_completion : std_string -> std_string -> Reply bool;
  run_background_loop : Reply unit;
  run_background_stream_back_loop : Reply unit;
  get_last_error : Reply std_string;
  exit_background_loop : Reply unit
}.

(** A [PackedFunc] of signature [Sig]; [None] is the null one, as
    default-constructed or as returned by the lookup of a missing
    method. *)
Definition PackedFunc (Sig : Type) : Type := option Sig.

(** [Registry::Get]: the process-wide table of named callables; the bridge
    only reads the engine factory from it. *)
Definition Registry : Type := string -> option (Reply Module).

(** ** The wrapper object *)

Record MLCEngineWrapper : Type := {
  model_path_ : std_string;
  token_callback_ : option FnPtr;
  is_initialized_ : bool;
  json_ffi_engine_ : option Module;
  init_background_engine_ : PackedFunc (Z -> Z -> Reply unit);
  reload_ : PackedFunc (std_string -> Reply unit);
  chat_completion_ : PackedFunc (std_string -> std_string -> Reply bool);
  run_background_loop_ : PackedFunc (Reply unit);
  run_background_stream_back_loop_ : PackedFunc (Reply unit);
  get_last_error_ : PackedFunc (Reply std_string)
}.

Definition set_token_callback_ v (w : MLCEngineWrapper) :=
  {| model_path_ := model_path_ w; token_callback_ := v;
     is_initialized_ := is_initialized_ w;
     json_ffi_engine_ := json_ffi_engine_ w;
     init_background_engine_ := init_background_engine_ w;
     reload_ := reload_ w; chat_completion_ := chat_completion_ w;
     run_background_loop_ := run_background_loop_ w;
     run_background_stream_back_loop_ := run_background_stream_back_loop_ w;
     get_last_error_ := get_last_error_ w |}.

Definition set_is_initialized_ v (w : MLCEngineWrapper) :=
  {| model_path_ := model_path_ w; token_callback_ := token_callback_ w;
     is_initialized_ := v;
     json_ffi_engine_ := json_ffi_engine_ w;
     init_background_engine_ := init_background_engine_ w;
     reload_ := reload_ w; chat_completion_ := chat_completion_ w;
     run_background_loop_ := run_background_loop_ w;
     run_background_stream_back_loop_ := run_background_stream_back_loop_ w;
     get_last_error_ := get_last_error_ w |}.

Definition set_json_ffi_engine_ v (w : MLCEngineWrapper) :=
  {| model_path_ := model_path_ w; token_callback_ := token_callback_ w;
     is_initialized_ := is_initialized_ w;
     json_ffi_engine_ := v;
     init_background_engine_ := init_background_engine_ w;
     reload_ := reload_ w; chat_completion_ := chat_completion_ w;
     run_background_loop_ := run_background_loop_ w;
     run_background_stream_back_loop_ := run_background_stream_back_loop_ w;
     get_last_error_ := get_last_error_ w |}.

Definition set_init_background_engine_ v (w : MLCEngineWrapper) :=
  {| model_path_ := model_path_ w; token_callback_ := token_callback_ w;
     is_initialized_ := is_initialized_ w;
     json_ffi_engine_ := json_ffi_engine_ w;
     init_background_engine_ := v;
     reload_ := reload_ w; chat_completion_ := chat_completion_ w;
     run_background_loop_ := run_background_loop_ w;
     run_background_stream_back_loop_ := run_background_stream_back_loop_ w;
     get_last_error_ := get_last_error_ w |}.

Definition set_reload_ v (w : MLCEngineWrapper) :=
  {| model_path_ := model_path_ w; token_callback_ := token_callback_ w;
     is_initialized_ := is_initialized_ w;
     json_ffi_engine_ := json_ffi_engine_ w;
     init_background_engine_ := init_background_engine_ w;
     reload_ := v; chat_completion_ := chat_completion_ w;
     run_background_loop_ := run_background_loop_ w;
     run_background_stream_back_loop_ := run_background_stream_back_loop_ w;
     get_last_error_ := get_last_error_ w |}.

Definition set_chat_completion_ v (w : MLCEngineWrapper) :=
  {| model_path_ := model_path_ w; token_callback_ := token_callback_ w;
     is_initialized_ := is_initialized_ w;
     json_ffi_engine_ := json_ffi_engine_ w;
     init_background_engine_ := init_background_engine_ w;
     reload_ := reload_ w; chat_completion_ := v;
     run_background_loop_ := run_background_loop_ w;
     run_background_stream_back_loop_ := run_background_stream_back_loop_ w;
     get_last_error_ := get_last_error_ w |}.

Definition set_run_background_loop_ v (w : MLCEngineWrapper) :=
  {| model_path_ := model_path_ w; token_callback_ := token_callback_ w;
     is_initialized_ := is_initialized_ w;
     json_ffi_engine_ := json_ffi_engine_ w;
     init_background_engine_ := init_background_engine_ w;
     reload_ := reload_ w; chat_completion_ := chat_completion_ w;
     run_background_loop_ := v;
     run_background_stream_back_loop_ := run_background_stream_back_loop_ w;
     get_last_error_ := get_last_error_ w |}.

Definition set_run_background_stream_back_loop_ v (w : MLCEngineWrapper) :=
  {| model_path_ := model_path_ w; token_callback_ := token_callback_ w;
     is_initialized_ := is_initialized_ w;
     json_ffi_engine_ := json_ffi_engine_ w;
     init_background_engine_ := init_background_engine_ w;
     reload_ := reload_ w; chat_completion_ := chat_completion_ w;
     run_background_loop_ := run_background_loop_ w;
     run_background_stream_back_loop_ := v;
     get_last_error_ := get_last_error_ w |}.

Definition set_get_last_error_ v (w : MLCEngineWrapper) :=
  {| model_path_ := model_path_ w; token_callback_ := token_callback_ w;
     is_initialized_ := is_initialized_ w;
     json_ffi_engine_ := json_ffi_engine_ w;
     init_background_engine_ := init_background_engine_ w;
     reload_ := reload_ w; chat_completion_ := chat_completion_ w;
     run_background_loop_ := run_background_loop_ w;
     run_background_stream_back_loop_ := run_background_stream_back_loop_ w;
     get_last_error_ := v |}.

(** ** Raw string literals

    The raw string literals of the source are transcribed with an
    apostrophe in place of each double quote (no literal of the source
    holds an apostrophe); [raw] puts the double quotes back. *)
Definition raw (s : string) : std_string :=
  map (fun c => if Ascii.eqb c "'"%char then dq else c) (lit s).

(** ** Member functions: state of [this], events, and exceptions *)

Definition M (A : Type) : Type :=
  MLCEngineWrapper -> MLCEngineWrapper * list Event * Outcome A.

Definition ret {A} (a : A) : M A := fun this => (this, [], Returns a).

Definition bind {A B} (m : M A) (k : A -> M B) : M B :=
  fun this =>
    match m this with
    | (this', evs, Returns a) =>
        match k a this' with
        | (this'', evs', r) => (this'', evs ++ evs', r)
        end
    | (this', evs, Throws e) => (this', evs, Throws e)
    | (this', evs, Undefined) => (this', evs, Undefined)
    end.

Declare Scope bridge_scope.
Delimit Scope bridge_scope with bridge.
Notation "'let*' x ':=' m 'in' k" := (bind m (fun x => k))
  (at level 10, x name, m at level 100, k at level 200) : bridge_scope.
Notation "m '>>' k" := (bind m (fun _ => k))
  (at level 100, k at level 200, right associativity) : bridge_scope.
Local Open Scope bridge_scope.

Definition throw {A} (what : string) : M A :=
  fun this => (this, [], Throws what).

Definition undefined {A} : M A := fun this => (this, [], Undefined).

Definition get_this : M MLCEngineWrapper :=
  fun this => (this, [], Returns this).

Definition modify (f : MLCEngineWrapper -> MLCEngineWrapper) : M unit :=
  fun this => (f this, [], Returns tt).

(** [try { body } catch (const std::exception& e) { handler }], and
    [catch (...)] alike: every exception of the model is a
    [std::exception]. *)
Definition try_catch {A} (body : M A) (handler : string -> M A) : M A :=
  fun this =>
    match body this with
    | (this', evs, Throws e) =>
        match handler e this' with
        | (this'', evs', r) => (this'', evs ++ evs', r)
        end
    | r => r
    end.

(** A call into the engine, recorded as an event.  [r] is what the call
    does: [None] when the callee is a null [PackedFunc], whose call goes
    through a null pointer. *)
Definition invoke {A} (name : string) (args : list Arg)
    (r : option (Reply A)) : M A :=
  fun this =>
    match r with
    | Some (Ok a) => (this, [EvCall name args], Returns a)
    | Some (Raise e) => (this, [EvCall name args], Throws e)
    | None => (this, [], Undefined)
    end.

(** [json_ffi_engine_->GetFunction(name)]; [sel] picks the method that
    goes by that name.  The result is not tested by any caller: for a
    missing method it is the null [PackedFunc]. *)
Definition getFunction {Sig} (name : string) (sel : Module -> Sig)
    : M (PackedFunc Sig) :=
  fun this =>
    match json_ffi_engine_ this with
    | None => (this, [], Undefined)
    | Some m =>
        match GetFunction m name with
        | Ok found =>
            (this, [], Returns (if found then Some (sel m) else None))
        | Raise e => (this, [], Throws e)
        end
    end.

(** The host callback is invoked with a C string. *)
Definition call_sink (callback : FnPtr) (token : std_string) : M unit :=
  fun this => (this, [EvSink callback token], Returns tt).

Definition events {S A} (r : S * list Event * Outcome A) : list Event :=
  snd (fst r).
Definition final {S A} (r : S * list Event * Outcome A) : S := fst (fst r).
Definition outcome {S A} (r : S * list Event * Outcome A) : Outcome A :=
  snd r.

(** ** Construction and destruction *)

Definition engine_config (model_path : std_string) : std_string :=
  raw "{
                'model': '" ++ model_path ++ raw "',
                'model_lib': 'TinyLlama-1.1B-MLC',
                'device': 'metal:0',
                'max_num_sequence': 1,
                'max_total_sequence_length': 2048,
                'prefill_chunk_size': 2048,
                'max_history_size': 1
            }".

(** The body of the constructor's [try] block. *)
Definition MLCEngineWrapper_ctor_body (registry : Registry)
    (model_path : std_string) : M unit :=
  let* create_func :=
    match registry "mlc.json_ffi.CreateJSONFFIEngine"%string with
    | None => throw "Cannot find mlc.json_ffi.CreateJSONFFIEngine function"
    | Some f => ret f
    end in
  let* engine :=
    invoke "mlc.json_ffi.CreateJSONFFIEngine" [] (Some create_func) in
  modify (set_json_ffi_engine_ (Some engine)) >>
  let* f := getFunction "init_background_engine" init_background_engine in
  modify (set_init_background_engine_ f) >>
  let* f := getFunction "reload" reload in
  modify (set_reload_ f) >>
  let* f := getFunction "chat_completion" chat_completion in
  modify (set_chat_completion_ f) >>
  let* f := getFunction "run_background_loop" run_background_loop in
  modify (set_run_background_loop_ f) >>
  let* f := getFunction "run_background_stream_back_loop"
              run_background_stream_back_loop in
  modify (set_run_background_stream_back_loop_ f) >>
  let* f := getFunction "get_last_error" get_last_error in
  modify (set_get_last_error_ f) >>
  let* this := get_this in
  invoke "init_background_engine" [AInt 8; AInt 0; AStreamCallback]
    (option_map (fun f => f 8 0) (init_background_engine_ this)) >>
  let* this := get_this in
  invoke "reload" [AStr (engine_config model_path)]
    (option_map (fun f => f (engine_config model_path)) (reload_ this)) >>
  modify (set_is_initialized_ true).

(** The object as the member initialisers leave it. *)
Definition fresh_wrapper (model_path : std_string) : MLCEngineWrapper :=
  {| model_path_ := model_path; token_callback_ := None;
     is_initialized_ := false; json_ffi_engine_ := None;
     init_background_engine_ := None; reload_ := None;
     chat_completion_ := None; run_background_loop_ := None;
     run_background_stream_back_loop_ := None; get_last_error_ := None |}.

(** [MLCEngineWrapper::MLCEngineWrapper(model_path)]. *)
Definition MLCEngineWrapper_ctor (registry : Registry)
    (model_path : std_string)
    : MLCEngineWrapper * list Event * Outcome unit :=
  try_catch (MLCEngineWrapper_ctor_body registry model_path)
            (fun _ => modify (set_is_initialized_ false))
            (fresh_wrapper model_path).

(** [MLCEngineWrapper::~MLCEngineWrapper()]. *)
Definition MLCEngineWrapper_dtor : M unit :=
  let* this := get_this in
  if is_initialized_ this then
    try_catch
      (let* exit_loop := getFunction "exit_background_loop"
                           exit_background_loop in
       invoke "exit_background_loop" [] exit_loop)
      (fun _ => ret tt)
  else ret tt.

(** [MLCEngineWrapper::isInitialized() const]. *)
Definition isInitialized (this : MLCEngineWrapper) : bool :=
  is_initialized_ this.

(** ** Streaming *)

(** The text searched for in each fragment; it has 11 bytes. *)
Definition content_key : std_string := raw "'content':'".

(** [MLCEngineWrapper::processStreamResponse(response_json)]. *)
Definition processStreamResponse (response_json : std_string) : M unit :=
  let* this := get_this in
  match token_callback_ this with
  | None => ret tt
  | Some token_callback =>
      match find response_json content_key 0 with
      | Some content_pos =>
          let start := (content_pos + 11)%nat in
          match find response_json [dq] start with
          | Some end_ =>
              match substr response_json start (end_ - start) with
              | Some content =>
                  if negb (empty content)
                  then call_sink token_callback (c_str content)
                  else ret tt
              | None => throw "basic_string::substr"
              end
          | None => ret tt
          end
      | None => ret tt
      end
  end.

(** ** Generation *)

(** [std::chrono::system_clock] ticks in microseconds since the epoch;
    [duration_cast<milliseconds>] truncates towards zero. *)
Definition duration_cast_milliseconds (us : Z) : Z := us ÷ 1000.

Definition request_id_of (now : Z) : std_string :=
  lit "req_" ++ to_string_Z (duration_cast_milliseconds now).

Section Generate.

(** The type [float] and [std::to_string(float)] come from the C++
    implementation. *)
Variable float : Type.
Variable to_string_float : float -> std_string.

Definition request_json_of (prompt : std_string) (max_tokens : Z)
    (temperature : float) : std_string :=
  raw "{
            'messages': [
                {
                    'role': 'user', 
                    'content': '" ++ prompt ++ raw "'
                }
            ],
            'model': 'TinyLlama-1.1B-MLC',
            'max_tokens': " ++ to_string_Z max_tokens ++ raw ",
            'temperature': " ++ to_string_float temperature ++ raw ",
            'stream': true
        }".

(** [MLCEngineWrapper::generate(prompt, max_tokens, temperature, callback)];
    [now] is what [std::chrono::system_clock::now()] reads. *)
Definition generate (prompt : std_string) (max_tokens : Z)
    (temperature : float) (callback : option FnPtr) (now : Z) : M Z :=
  let* this := get_this in
  if negb (is_initialized_ this) then ret (-1)
  else
    modify (set_token_callback_ callback) >>
    let request_json := request_json_of prompt max_tokens temperature in
    let request_id := request_id_of now in
    try_catch
      (let* this := get_this in
       let* success :=
         invoke "chat_completion" [AStr request_json; AStr request_id]
           (option_map (fun f => f request_json request_id)
                       (chat_completion_ this)) in
       if negb success then
         let* this := get_this in
         let* error := invoke "get_last_error" [] (get_last_error_ this) in
         ret (-2)
       else ret 0)
      (fun _ => ret (-2)).

(** ** The C ABI *)

(** The free store: the live wrappers, by address. *)
Abbreviation Heap := (gmap positive MLCEngineWrapper).

(** [new MLCEngineWrapper(...)]: the object goes to an unused address. *)
Definition new_ (w : MLCEngineWrapper) (heap : Heap) : positive * Heap :=
  let p := fresh (dom heap) in (p, <[p := w]> heap).

(** [delete p]: runs the destructor, then frees the object. *)
Definition delete_ (p : positive) (heap : Heap)
    : Heap * list Event * Outcome unit :=
  match heap !! p with
  | None => (heap, [], Undefined)
  | Some w =>
      match MLCEngineWrapper_dtor w with
      | (_, evs, r) => (delete p heap, evs, r)
      end
  end.

(** [mlc_llm_create_engine(model_path)]: a handle, or [None] for the null
    pointer. *)
Definition mlc_llm_create_engine (registry : Registry)
    (model_path : std_string) (heap : Heap)
    : Heap * list Event * Outcome (option positive) :=
  match MLCEngineWrapper_ctor registry model_path with
  | (w, evs, Returns _) =>
      let '(engine, heap1) := new_ w heap in
      if negb (isInitialized w) then
        match delete_ engine heap1 with
        | (heap2, evs', Returns _) => (heap2, evs ++ evs', Returns None)
        | (heap2, evs', Throws _) => (heap2, evs ++ evs', Returns None)
        | (heap2, evs', Undefined) => (heap2, evs ++ evs', Undefined)
        end
      else (heap1, evs, Returns (Some engine))
  | (_, evs, Throws _) => (heap, evs, Returns None)
  | (_, evs, Undefined) => (heap, evs, Undefined)
  end.

(** [mlc_llm_generate(engine, prompt, max_tokens, temperature, callback)]. *)
Definition mlc_llm_generate (engine : option positive)
    (prompt : option std_string) (max_tokens : Z) (temperature : float)
    (callback : option FnPtr) (now : Z) (heap : Heap)
    : Heap * list Event * Outcome Z :=
  match engine, prompt with
  | None, _ | _, None => (heap, [], Returns (-1))
  | Some p, Some prompt =>
      match heap !! p with
      | None => (heap, [], Undefined)
      | Some mlc_engine =>
          match generate prompt max_tokens temperature callback now
                  mlc_engine with
          | (w', evs, Throws _) => (<[p := w']> heap, evs, Returns (-2))
          | (w', evs, r) => (<[p := w']> heap, evs, r)
          end
      end
  end.

(** [mlc_llm_destroy_engine(engine)]. *)
Definition mlc_llm_destroy_engine (engine : option positive) (heap : Heap)
    : Heap * list Event * Outcome unit :=
  match engine with
  | Some p => delete_ p heap
  | None => (heap, [], Returns tt)
  end.

(** The engine's stream callback, bound to the wrapper at address [p]:
    it hands the fragment to [processStreamResponse]. *)
Definition stream_callback (p : positive) (response_json : std_string)
    (heap : Heap) : Heap * list Event * Outcome unit :=
  match heap !! p with
  | None => (heap, [], Undefined)
  | Some w =>
      match processStreamResponse response_json w with
      | (w', evs, r) => (<[p := w']> heap, evs, r)
      end
  end.

End Generate.

Arguments request_json_of {float} to_string_float.
Arguments generate {float} to_string_float.
Arguments mlc_llm_generate {float} to_string_float.

(** ** JSON text, as the specification reads it

    The definitions of this part follow the specification, not the source:
    JSON strings with the standard escapes, the deltas of a fragment that
    the Delta Extractor is specified to yield, and a reader of JSON
    documents against which the request text is judged. *)

Definition code (c : ascii) : N := N_of_ascii c.

Definition is_digit (c : ascii) : bool :=
  (48 <=? code c)%N && (code c <=? 57)%N.

Definition hex_val (c : ascii) : option N :=
  let n := code c in
  if (48 <=? n)%N && (n <=? 57)%N then Some (n - 48)%N
  else if (97 <=? n)%N && (n <=? 102)%N then Some (n - 87)%N
  else if (65 <=? n)%N && (n <=? 70)%N then Some (n - 55)%N
  else None.

Definition hex_digit (d : N) : ascii :=
  if (d <? 10)%N then ascii_of_N (48 + d) else ascii_of_N (87 + d).

(** The UTF-8 bytes of a code point. *)
Definition utf8_encode (cp : N) : std_string :=
  if (cp <? 128)%N then [ascii_of_N cp]
  else if (cp <? 2048)%N then
    [ascii_of_N (192 + cp / 64); ascii_of_N (128 + cp mod 64)]
  else if (cp <? 65536)%N then
    [ascii_of_N (224 + cp / 4096); ascii_of_N (128 + (cp / 64) mod 64);
     ascii_of_N (128 + cp mod 64)]
  else
    [ascii_of_N (240 + cp / 262144); ascii_of_N (128 + (cp / 4096) mod 64);
     ascii_of_N (128 + (cp / 64) mod 64); ascii_of_N (128 + cp mod 64)].

(** Where the reader of a JSON string stands. *)
Inductive str_state : Type :=
| SPlain
| SEscape
| SHex (todo : nat) (cp : N) (high : option N)
| SLowBackslash (high : N)
| SLowU (high : N).

(** The four hex digits of a [\u] escape have been read. *)
Definition finish_hex (cp : N) (high : option N)
    : option (str_state * std_string) :=
  let is_high := (55296 <=? cp)%N && (cp <? 56320)%N in
  let is_low := (56320 <=? cp)%N && (cp <? 57344)%N in
  match high with
  | None =>
      if is_high then Some (SLowBackslash cp, [])
      else if is_low then None
      else Some (SPlain, utf8_encode cp)
  | Some h =>
      if is_low
      then Some (SPlain,
                 utf8_encode (65536 + (h - 55296) * 1024 + (cp - 56320))%N)
      else None
  end.

(** One byte of the inside of a JSON string: the next state and the bytes
    it stands for; [None] when the byte is not allowed there.  In state
    [SPlain] the closing quote is for the caller to see first. *)
Definition str_step (st : str_state) (c : ascii)
    : option (str_state * std_string) :=
  match st with
  | SPlain =>
      if Ascii.eqb c bs then Some (SEscape, [])
      else if Ascii.eqb c dq then None
      else if (code c <? 32)%N then None
      else Some (SPlain, [c])
  | SEscape =>
      if Ascii.eqb c dq then Some (SPlain, [dq])
      else if Ascii.eqb c bs then Some (SPlain, [bs])
      else if Ascii.eqb c "/" then Some (SPlain, ["/"%char])
      else if Ascii.eqb c "b" then Some (SPlain, ["008"%char])
      else if Ascii.eqb c "f" then Some (SPlain, ["012"%char])
      else if Ascii.eqb c "n" then Some (SPlain, ["010"%char])
      else if Ascii.eqb c "r" then Some (SPlain, ["013"%char])
      else if Ascii.eqb c "t" then Some (SPlain, ["009"%char])
      else if Ascii.eqb c "u" then Some (SHex 4 0 None, [])
      else None
  | SHex todo cp high =>
      match hex_val c with
      | None => None
      | Some d =>
          let cp' := (cp * 16 + d)%N in
          match todo with
          | O => None
          | S O => finish_hex cp' high
          | S todo' => Some (SHex todo' cp' high, [])
          end
      end
  | SLowBackslash h => if Ascii.eqb c bs then Some (SLowU h, []) else None
  | SLowU h => if Ascii.eqb c "u" then Some (SHex 4 0 (Some h), []) else None
  end.

Definition is_SPlain (st : str_state) : bool :=
  match st with SPlain => true | _ => false end.

(** Reads the inside of a JSON string up to its closing quote: the string
    it denotes, and the text after the closing quote. *)
Fixpoint read_string (st : str_state) (s : std_string)
    : option (std_string * std_string) :=
  match s with
  | [] => None
  | c :: s' =>
      if is_SPlain st && Ascii.eqb c dq then Some ([], s')
      else
        match str_step st c with
        | None => None
        | Some (st', out) =>
            match read_string st' s' with
            | None => None
            | Some (v, rest) => Some (out ++ v, rest)
            end
        end
  end.

(** The reader run over bytes that do not close the string: the state
    reached and the bytes denoted so far. *)
Fixpoint str_run (st : str_state) (s : std_string)
    : option (str_state * std_string) :=
  match s with
  | [] => Some (st, [])
  | c :: s' =>
      if is_SPlain st && Ascii.eqb c dq then None
      else
        match str_step st c with
        | None => None
        | Some (st', out) =>
            match str_run st' s' with
            | None => None
            | Some (st'', out') => Some (st'', out ++ out')
            end
        end
  end.

(** JSON string unescaping of a whole string body. *)
Definition json_unescape (s : std_string) : option std_string :=
  match read_string SPlain (s ++ [dq]) with
  | Some (v, []) => Some v
  | _ => None
  end.

(** JSON string escaping, as an encoder writes a string body. *)
Definition escape_byte (c : ascii) : std_string :=
  if Ascii.eqb c dq then [bs; dq]
  else if Ascii.eqb c bs then [bs; bs]
  else if Ascii.eqb c "008" then [bs; "b"%char]
  else if Ascii.eqb c "012" then [bs; "f"%char]
  else if Ascii.eqb c "010" then [bs; "n"%char]
  else if Ascii.eqb c "013" then [bs; "r"%char]
  else if Ascii.eqb c "009" then [bs; "t"%char]
  else if (code c <? 32)%N then
    [bs; "u"%char; "0"%char; "0"%char;
     hex_digit (code c / 16); hex_digit (code c mod 16)]
  else [c].

Definition json_escape (s : std_string) : std_string :=
  flat_map escape_byte s.

(** A byte that stands for itself in a JSON string. *)
Definition plain (c : ascii) : bool :=
  negb (Ascii.eqb c dq) && negb (Ascii.eqb c bs) && negb (code c <? 32)%N.

(** The fragment the engine emits for a content delta [D], in the shape of
    the specification's scenarios. *)
Definition fragment_containing (D : std_string) : std_string :=
  raw "{'choices':[{'delta':{'content':'" ++ json_escape D ++ raw "'}}]}".

(** The deltas of a fragment, as the Delta Extractor is specified: each
    occurrence of the key [content] paired with a string value yields
    that string, unescaped, in encounter order. *)
Fixpoint spec_deltas_from (fuel : nat) (s : std_string) : list std_string :=
  match fuel with
  | O => []
  | S fuel' =>
      match find s content_key 0 with
      | None => []
      | Some p =>
          match read_string SPlain (drop (p + 11) s) with
          | Some (v, rest) => v :: spec_deltas_from fuel' rest
          | None => spec_deltas_from fuel' (drop (p + 11) s)
          end
      end
  end.

Definition spec_deltas (fragment : std_string) : list std_string :=
  spec_deltas_from (length fragment) fragment.

Definition nonempty (s : std_string) : bool := negb (empty s).

(** *** JSON documents *)

(** The number grammar: an optional minus sign; then a single zero, or a
    non-zero digit and any digits; then, optionally, a point and one digit
    or more; then, optionally, [e] or [E], an optional sign and one digit
    or more. *)
Inductive num_state : Type :=
| NStart | NMinus | NZero | NInt | NDot | NFrac | NE | NESign | NExp.

Definition num_step (st : num_state) (c : ascii) : option num_state :=
  let d := is_digit c in
  let e := Ascii.eqb c "e" || Ascii.eqb c "E" in
  match st with
  | NStart =>
      if Ascii.eqb c "-" then Some NMinus
      else if Ascii.eqb c "0" then Some NZero
      else if d then Some NInt else None
  | NMinus =>
      if Ascii.eqb c "0" then Some NZero
      else if d then Some NInt else None
  | NZero =>
      if Ascii.eqb c "." then Some NDot else if e then Some NE else None
  | NInt =>
      if d then Some NInt
      else if Ascii.eqb c "." then Some NDot
      else if e then Some NE else None
  | NDot => if d then Some NFrac else None
  | NFrac => if d then Some NFrac else if e then Some NE else None
  | NE =>
      if Ascii.eqb c "+" || Ascii.eqb c "-" then Some NESign
      else if d then Some NExp else None
  | NESign => if d then Some NExp else None
  | NExp => if d then Some NExp else None
  end.

Fixpoint num_run (st : num_state) (s : std_string) : option num_state :=
  match s with
  | [] => Some st
  | c :: s' =>
      match num_step st c with
      | None => None
      | Some st' => num_run st' s'
      end
  end.

Definition is_json_number (s : std_string) : bool :=
  match num_run NStart s with
  | Some NZero | Some NInt | Some NFrac | Some NExp => true
  | _ => false
  end.

Definition is_num_char (c : ascii) : bool :=
  is_digit c || Ascii.eqb c "-" || Ascii.eqb c "+" || Ascii.eqb c "."
  || Ascii.eqb c "e" || Ascii.eqb c "E".

Definition is_lower (c : ascii) : bool :=
  (97 <=? code c)%N && (code c <=? 122)%N.

Definition is_ws (c : ascii) : bool :=
  Ascii.eqb c " " || Ascii.eqb c "009" || Ascii.eqb c "010"
  || Ascii.eqb c "013".

Inductive token : Type :=
| TLBrace | TRBrace | TLBrack | TRBrack | TColon | TComma
| TStr (s : std_string)
| TNum (text : std_string)
| TTrue | TFalse | TNull.

Inductive lex_state : Type :=
| LDefault
| LStr (st : str_state) (acc : std_string)
| LNum (acc : std_string)
| LWord (acc : std_string).

(** A byte met between tokens. *)
Definition lex_default (c : ascii) : option (lex_state * list token) :=
  if is_ws c then Some (LDefault, [])
  else if Ascii.eqb c "{" then Some (LDefault, [TLBrace])
  else if Ascii.eqb c "}" then Some (LDefault, [TRBrace])
  else if Ascii.eqb c "[" then Some (LDefault, [TLBrack])
  else if Ascii.eqb c "]" then Some (LDefault, [TRBrack])
  else if Ascii.eqb c ":" then Some (LDefault, [TColon])
  else if Ascii.eqb c "," then Some (LDefault, [TComma])
  else if Ascii.eqb c dq then Some (LStr SPlain [], [])
  else if Ascii.eqb c "-" || is_digit c then Some (LNum [c], [])
  else if is_lower c then Some (LWord [c], [])
  else None.

(** The token that is pending when a delimiter or the end is met. *)
Definition lex_flush (st : lex_state) : option (list token) :=
  match st with
  | LDefault => Some []
  | LStr _ _ => None
  | LNum acc => if is_json_number acc then Some [TNum acc] else None
  | LWord acc =>
      if bool_decide (acc = lit "true") then Some [TTrue]
      else if bool_decide (acc = lit "false") then Some [TFalse]
      else if bool_decide (acc = lit "null") then Some [TNull]
      else None
  end.

Definition lex_delimiter (st : lex_state) (c : ascii)
    : option (lex_state * list token) :=
  match lex_flush st, lex_default c with
  | Some toks, Some (st', toks') => Some (st', toks ++ toks')
  | _, _ => None
  end.

Definition lex_step (st : lex_state) (c : ascii)
    : option (lex_state * list token) :=
  match st with
  | LDefault => lex_default c
  | LStr s acc =>
      if is_SPlain s && Ascii.eqb c dq then Some (LDefault, [TStr acc])
      else
        match str_step s c with
        | Some (s', out) => Some (LStr s' (acc ++ out), [])
        | None => None
        end
  | LNum acc =>
      if is_num_char c then Some (LNum (acc ++ [c]), [])
      else lex_delimiter st c
  | LWord acc =>
      if is_lower c then Some (LWord (acc ++ [c]), [])
      else lex_delimiter st c
  end.

Fixpoint lex (st : lex_state) (s : std_string) : option (list token) :=
  match s with
  | [] => lex_flush st
  | c :: s' =>
      match lex_step st c with
      | None => None
      | Some (st', toks) =>
          match lex st' s' with
          | None => None
          | Some toks' => Some (toks ++ toks')
          end
      end
  end.

#[local] Set Warnings "-register-all".
Inductive json : Type :=
| JNull
| JBool (b : bool)
| JNum (text : std_string)
| JStr (s : std_string)
| JArr (elements : list json)
| JObj (members : list (std_string * json)).

(** Recursive descent over the tokens; [fuel] bounds the nesting and the
    number of elements, one per token being enough. *)
Fixpoint parse_value (fuel : nat) (toks : list token)
    : option (json * list token) :=
  match fuel with
  | O => None
  | S fuel' =>
      match toks with
      | TNull :: r => Some (JNull, r)
      | TTrue :: r => Some (JBool true, r)
      | TFalse :: r => Some (JBool false, r)
      | TNum t :: r => Some (JNum t, r)
      | TStr s :: r => Some (JStr s, r)
      | TLBrack :: TRBrack :: r => Some (JArr [], r)
      | TLBrack :: r =>
          match parse_value fuel' r with
          | Some (v, r1) =>
              match parse_elements fuel' r1 with
              | Some (vs, r2) => Some (JArr (v :: vs), r2)
              | None => None
              end
          | None => None
          end
      | TLBrace :: TRBrace :: r => Some (JObj [], r)
      | TLBrace :: TStr k :: TColon :: r =>
          match parse_value fuel' r with
          | Some (v, r1) =>
              match parse_members fuel' r1 with
              | Some (ms, r2) => Some (JObj ((k, v) :: ms), r2)
              | None => None
              end
          | None => None
          end
      | _ => None
      end
  end
with parse_elements (fuel : nat) (toks : list token)
    : option (list json * list token) :=
  match fuel with
  | O => None
  | S fuel' =>
      match toks with
      | TRBrack :: r => Some ([], r)
      | TComma :: r =>
          match parse_value fuel' r with
          | Some (v, r1) =>
              match parse_elements fuel' r1 with
              | Some (vs, r2) => Some (v :: vs, r2)
              | None => None
              end
          | None => None
          end
      | _ => None
      end
  end
with parse_members (fuel : nat) (toks : list token)
    : option (list (std_string * json) * list token) :=
  match fuel with
  | O => None
  | S fuel' =>
      match toks with
      | TRBrace :: r => Some ([], r)
      | TComma :: TStr k :: TColon :: r =>
          match parse_value fuel' r with
          | Some (v, r1) =>
              match parse_members fuel' r1 with
              | Some (ms, r2) => Some ((k, v) :: ms, r2)
              | None => None
              end
          | None => None
          end
      | _ => None
      end
  end.

(** A well-formed JSON document, decoded. *)
Definition json_parse (s : std_string) : option json :=
  match lex LDefault s with
  | None => None
  | Some toks =>
      match parse_value (S (length toks)) toks with
      | Some (v, []) => Some v
      | _ => None
      end
  end.

Definition obj_get (k : std_string) (j : json) : option json :=
  match j with
  | JObj ms =>
      match List.find (fun m => bool_decide (fst m = k)) ms with
      | Some m => Some (snd m)
      | None => None
      end
  | _ => None
  end.

Definition arr_get (i : nat) (j : json) : option json :=
  match j with
  | JArr l => nth_error l i
  | _ => None
  end.

Definition as_string (j : json) : option std_string :=
  match j with
  | JStr s => Some s
  | _ => None
  end.

(** [messages[0].content] of a decoded request. *)
Definition messages_0_content (j : json) : option std_string :=
  match obj_get (lit "messages") j with
  | Some ms =>
      match arr_get 0 ms with
      | Some m =>
          match obj_get (lit "content") m with
          | Some c => as_string c
          | None => None
          end
      | None => None
      end
  | None => None
  end.

(** The lexer run over a prefix of the input: the state reached and the
    tokens produced so far. *)
Fixpoint lex_run (st : lex_state) (s : std_string)
    : option (lex_state * list token) :=
  match s with
  | [] => Some (st, [])
  | c :: s' =>
      match lex_step st c with
      | None => None
      | Some (st', toks) =>
          match lex_run st' s' with
          | None => None
          | Some (st'', toks') => Some (st'', toks ++ toks')
          end
      end
  end.

(** ** Vocabulary of the statements *)

(** [needle] occurs in [s] at index [i]. *)
Definition occurs_at (needle s : std_string) (i : nat) : Prop :=
  exists pre post, s = pre ++ needle ++ post /\ length pre = i.

(** [i] is the index of the first occurrence of [needle] in [s]. *)
Definition first_occurrence (needle s : std_string) (i : nat) : Prop :=
  occurs_at needle s i /\ forall j, occurs_at needle s j -> (i <= j)%nat.

(** The methods [generate] calls are bound in an initialized wrapper. *)
Definition bound (w : MLCEngineWrapper) : Prop :=
  is_initialized_ w = true ->
  is_Some (chat_completion_ w) /\ is_Some (get_last_error_ w).

(** A handle is null or points to a live wrapper. *)
Definition valid_handle (heap : gmap positive MLCEngineWrapper)
    (engine : option positive) : Prop :=
  match engine with
  | None => True
  | Some p => exists w, heap !! p = Some w /\ bound w
  end.

(** The names the constructor binds. *)
Definition bound_names : list string :=
  ["init_background_engine"; "reload"; "chat_completion";
   "run_background_loop"; "run_background_stream_back_loop";
   "get_last_error"]%string.

(** Construction fully succeeds: the factory is found and returns an
    engine, the six methods are bound, and the engine accepts
    [init_background_engine] and [reload]. *)
Definition construction_succeeds (registry : Registry)
    (model_path : std_string) : Prop :=
  exists m,
    registry "mlc.json_ffi.CreateJSONFFIEngine"%string = Some (Ok m)
    /\ Forall (fun name => GetFunction m name = Ok true) bound_names
    /\ init_background_engine m 8 0 = Ok tt
    /\ reload m (engine_config model_path) = Ok tt.

(** The six lookups of the constructor return, with a method or with the
    null [PackedFunc]. *)
Definition lookups_return (m : Module) : Prop :=
  Forall (fun name => exists found, GetFunction m name = Ok found)
    bound_names.

(** Construction runs to its end: the factory is found and returns an
    engine, none of the six lookups throws, and the two methods the
    constructor calls, [init_background_engine] and [reload], are there
    and accept.  The other four lookups may have given the null
    [PackedFunc]. *)
Definition construction_completes (registry : Registry)
    (model_path : std_string) : Prop :=
  exists m,
    registry "mlc.json_ffi.CreateJSONFFIEngine"%string = Some (Ok m)
    /\ lookups_return m
    /\ GetFunction m "init_background_engine" = Ok true
    /\ init_background_engine m 8 0 = Ok tt
    /\ GetFunction m "reload" = Ok true
    /\ reload m (engine_config model_path) = Ok tt.

(** The engine the factory returns has every method the constructor
    looks up: no lookup gives the null [PackedFunc]. *)
Definition methods_provided (registry : Registry) : Prop :=
  forall m,
    registry "mlc.json_ffi.CreateJSONFFIEngine"%string = Some (Ok m) ->
    Forall (fun name => GetFunction m name <> Ok false) bound_names.

(** Construction reaches the call of a method the engine does not have:
    all six lookups return, and either [init_background_engine] is
    missing, or it accepts and [reload] is missing. *)
Definition null_method_called (registry : Registry)
    (model_path : std_string) : Prop :=
  exists m,
    registry "mlc.json_ffi.CreateJSONFFIEngine"%string = Some (Ok m)
    /\ lookups_return m
    /\ (GetFunction m "init_background_engine" = Ok false
        \/ (GetFunction m "init_background_engine" = Ok true
            /\ init_background_engine m 8 0 = Ok tt
            /\ GetFunction m "reload" = Ok false)).

(** A stub engine, scripted by what [chat_completion] and
    [get_last_error] reply. *)
Definition stub_engine (chat : Reply bool) (err : Reply std_string)
    : Module :=
  {| GetFunction := fun _ => Ok true;
     init_background_engine := fun _ _ => Ok tt;
     reload := fun _ => Ok tt;
     chat_completion := fun _ _ => chat;
     run_background_loop := Ok tt;
     run_background_stream_back_loop := Ok tt;
     get_last_error := err;
     exit_background_loop := Ok tt |}.

(** An engine that accepts every call but has no method of the name
    [missing]. *)
Definition engine_without (missing : string) : Module :=
  {| GetFunction := fun name => Ok (negb (String.eqb name missing));
     init_background_engine := fun _ _ => Ok tt;
     reload := fun _ => Ok tt;
     chat_completion := fun _ _ => Ok true;
     run_background_loop := Ok tt;
     run_background_stream_back_loop := Ok tt;
     get_last_error := Ok [];
     exit_background_loop := Ok tt |}.

(** A registry that holds the factory of a given engine, and one that
    holds nothing. *)
Definition stub_registry (m : Module) : Registry :=
  fun name =>
    if String.eqb name "mlc.json_ffi.CreateJSONFFIEngine"
    then Some (Ok m) else None.

Definition empty_registry : Registry := fun _ => None.

(** An initialized wrapper over the accepting stub engine, as the
    constructor builds it, and the same with a host callback stored. *)
Definition stub_wrapper : MLCEngineWrapper :=
  final (MLCEngineWrapper_ctor
           (stub_registry (stub_engine (Ok true) (Ok []))) (lit "m")).

Definition listening_wrapper (callback : FnPtr) : MLCEngineWrapper :=
  set_token_callback_ (Some callback) stub_wrapper.

(** A free store that holds the stub wrapper at address 1. *)
Definition stub_heap : gmap positive MLCEngineWrapper :=
  {[1%positive := stub_wrapper]}.

(** A [std::to_string(float)] for the examples: it shows every
    temperature as 0.700000. *)
Definition stub_to_string_float (t : Z) : std_string := lit "0.700000".

(** What the lookup of [name] leaves in a member of the wrapper: the
    method, or the null [PackedFunc] when the engine has none of that
    name. *)
Definition looked_up {Sig} (m : Module) (name : string)
    (sel : Module -> Sig) : PackedFunc Sig :=
  match GetFunction m name with
  | Ok found => if found then Some (sel m) else None
  | Raise _ => None
  end.

(** The wrapper a construction that ran to its end over the engine [m]
    leaves behind. *)
Definition initialized_wrapper (m : Module) (model_path : std_string)
    : MLCEngineWrapper :=
  {| model_path_ := model_path; token_callback_ := None;
     is_initialized_ := true; json_ffi_engine_ := Some m;
     init_background_engine_ :=
       looked_up m "init_background_engine" init_background_engine;
     reload_ := looked_up m "reload" reload;
     chat_completion_ := looked_up m "chat_completion" chat_completion;
     run_background_loop_ :=
       looked_up m "run_background_loop" run_background_loop;
     run_background_stream_back_loop_ :=
       looked_up m "run_background_stream_back_loop"
         run_background_stream_back_loop;
     get_last_error_ := looked_up m "get_last_error" get_last_error |}.

(** The engine calls of a fully successful construction. *)
Definition construction_events (model_path : std_string) : list Event :=
  [EvCall "mlc.json_ffi.CreateJSONFFIEngine" [];
   EvCall "init_background_engine" [AInt 8; AInt 0; AStreamCallback];
   EvCall "reload" [AStr (engine_config model_path)]].

(** The bytes of [s] before its first double quote. *)
Fixpoint until_quote (s : std_string) : std_string :=
  match s with
  | [] => []
  | c :: s' => if Ascii.eqb c dq then [] else c :: until_quote s'
  end.

(** A fragment with two content deltas, [a] and [b]. *)
Definition two_delta_fragment : std_string :=
  raw "{'choices':[{'delta':{'content':'a'}},{'delta':{'content':'b'}}]}".

(** A content delta with quotes in it: the word say, then the word hi
    between double quotes. *)
Definition quoted_delta : std_string := raw "say 'hi'".

(** *** Statements of the specification, as it words them *)

(** Every non-empty content delta of a fragment reaches the sink, in
    encounter order, and nothing else does. *)
Definition every_delta_forwarded : Prop :=
  forall (w : MLCEngineWrapper) (cb : FnPtr) (frag : std_string),
    token_callback_ w = Some cb ->
    events (processStreamResponse frag w)
    = map (EvSink cb) (List.filter nonempty (spec_deltas frag)).

(** The delta yielded for the fragment of a content delta [D] is [D]. *)
Definition delta_round_trip : Prop :=
  forall (w : MLCEngineWrapper) (cb : FnPtr) (D : std_string),
    token_callback_ w = Some cb -> D <> [] ->
    events (processStreamResponse (fragment_containing D) w) = [EvSink cb D].

(** The same, with the unescaping left to the reader of the sink: what the
    sink receives unescapes to [D]. *)
Definition delta_round_trip_lenient : Prop :=
  forall (w : MLCEngineWrapper) (cb : FnPtr) (D : std_string),
    token_callback_ w = Some cb -> D <> [] ->
    exists raw_delta,
      events (processStreamResponse (fragment_containing D) w)
      = [EvSink cb raw_delta]
      /\ json_unescape raw_delta = Some D.

(** A non-null handle is returned exactly when construction fully
    succeeded: factory found, methods bound, [init_background_engine] and
    [reload] accepted. *)
Definition handle_iff_methods_bound : Prop :=
  forall (registry : Registry) (model_path : std_string)
    (heap : gmap positive MLCEngineWrapper),
    (exists p,
        outcome (mlc_llm_create_engine registry model_path heap)
        = Returns (Some p))
    <-> construction_succeeds registry model_path.

Definition no_control (c : ascii) : bool := (32 <=? code c)%N.

Section Statements.

Variable float : Type.
Variable to_string_float : float -> std_string.

(** What [generate] asks of the engine. *)
Definition chat_call (prompt : std_string) (max_tokens : Z)
    (temperature : float) (now : Z) : Event :=
  EvCall "chat_completion"
    [AStr (request_json_of to_string_float prompt max_tokens
             temperature);
     AStr (request_id_of now)].

(** The fixed text of a request around the two numbers. *)
Definition request_head (prompt : std_string) : std_string :=
  raw "{
            'messages': [
                {
                    'role': 'user', 
                    'content': '" ++ prompt ++ raw "'
                }
            ],
            'model': 'TinyLlama-1.1B-MLC',
            'max_tokens': ".

Definition request_middle : std_string :=
  raw ",
            'temperature': ".

Definition request_tail : std_string :=
  raw ",
            'stream': true
        }".

(** The request text before the prompt and after it, up to the first
    number. *)
Definition request_before_prompt : std_string :=
  raw "{
            'messages': [
                {
                    'role': 'user', 
                    'content': '".

Definition request_after_prompt : std_string :=
  raw "'
                }
            ],
            'model': 'TinyLlama-1.1B-MLC',
            'max_tokens': ".

(** The request, decoded, for a prompt and the texts of the two
    numbers. *)
Definition decoded_request (prompt max_tokens temperature : std_string)
    : json :=
  JObj [(lit "messages",
         JArr [JObj [(lit "role", JStr (lit "user"));
                     (lit "content", JStr prompt)]]);
        (lit "model", JStr (lit "TinyLlama-1.1B-MLC"));
        (lit "max_tokens", JNum max_tokens);
        (lit "temperature", JNum temperature);
        (lit "stream", JBool true)].

(** The request text of a prompt without control characters is a JSON
    document whose [messages[0].content] is the prompt. *)
Definition prompt_round_trip : Prop :=
  forall (P : std_string) (max_tokens : Z) (temperature : float),
    forallb no_control P = true ->
    is_json_number (to_string_float temperature) = true ->
    exists j,
      json_parse (request_json_of to_string_float P max_tokens
                    temperature) = Some j
      /\ messages_0_content j = Some P.

(** The wrappers in which no call of [generate] has stored a sink, or the
    last one stored a null callback. *)
Inductive no_sink_stored : MLCEngineWrapper -> Prop :=
| nss_constructed (registry : Registry) (model_path : std_string) :
    no_sink_stored (final (MLCEngineWrapper_ctor registry model_path))
| nss_null_stored (w : MLCEngineWrapper) (prompt : std_string)
    (max_tokens : Z) (temperature : float) (now : Z) :
    is_initialized_ w = true ->
    no_sink_stored
      (final (generate to_string_float prompt max_tokens temperature
                None now w))
| nss_refused (w : MLCEngineWrapper) (prompt : std_string)
    (max_tokens : Z) (temperature : float) (callback : option FnPtr)
    (now : Z) :
    no_sink_stored w -> is_initialized_ w = false ->
    no_sink_stored
      (final (generate to_string_float prompt max_tokens temperature
                callback now w))
| nss_streamed (w : MLCEngineWrapper) (frag : std_string) :
    no_sink_stored w ->
    no_sink_stored (final (processStreamResponse frag w)).

End Statements.

Arguments chat_call {float} to_string_float.
Arguments prompt_round_trip {float} to_string_float.
Arguments no_sink_stored {float} to_string_float.

(** *** Further vocabulary *)

(** The engine delivering fragments one after the other: the stream
    callback runs [processStreamResponse] on each, in order. *)
Fixpoint processStream (fragments : list std_string) : M unit :=
  match fragments with
  | [] => ret tt
  | fragment :: rest => processStreamResponse fragment >> processStream rest
  end.

(** The engine configuration, decoded, for a model path. *)
Definition decoded_config (model_path : std_string) : json :=
  JObj [(lit "model", JStr model_path);
        (lit "model_lib", JStr (lit "TinyLlama-1.1B-MLC"));
        (lit "device", JStr (lit "metal:0"));
        (lit "max_num_sequence", JNum (lit "1"));
        (lit "max_total_sequence_length", JNum (lit "2048"));
        (lit "prefill_chunk_size", JNum (lit "2048"));
        (lit "max_history_size", JNum (lit "1"))].

(** The configuration text before the model path and after it. *)
Definition config_before_path : std_string :=
  raw "{
                'model': '".

Definition config_after_path : std_string :=
  raw "',
                'model_lib': 'TinyLlama-1.1B-MLC',
                'device': 'metal:0',
                'max_num_sequence': 1,
                'max_total_sequence_length': 2048,
                'prefill_chunk_size': 2048,
                'max_history_size': 1
            }".

(** What the destructor asks of the engine of an initialized wrapper: the
    exit of the background loop, if the lookup finds that method. *)
Definition teardown_events (w : MLCEngineWrapper) : list Event :=
  match is_initialized_ w, json_ffi_engine_ w with
  | true, Some m =>
      match GetFunction m "exit_background_loop" with
      | Ok true => [EvCall "exit_background_loop" []]
      | _ => []
      end
  | _, _ => []
  end.

(** The destructor reaches the call of [exit_background_loop] on an
    engine that has no such method. *)
Definition exit_loop_missing (w : MLCEngineWrapper) : Prop :=
  is_initialized_ w = true
  /\ exists m,
       json_ffi_engine_ w = Some m
       /\ GetFunction m "exit_background_loop" = Ok false.

(** How many bytes more than it still reads an escape under way may
    yet give: at most four bytes come out of a [\u] escape, whose hex
    digits are counted down. *)
Definition escape_debt (st : str_state) : nat :=
  match st with
  | SHex todo _ _ => 4 - todo
  | _ => 0
  end.

(** The tokens of a request up to its prompt. *)
Definition tokens_before_prompt : list token :=
  [TLBrace; TStr (lit "messages"); TColon; TLBrack; TLBrace;
   TStr (lit "role"); TColon; TStr (lit "user"); TComma;
   TStr (lit "content"); TColon].

(** * Properties *)

(** ** [std::string::find] finds the first occurrence *)

Lemma eqb_true_iff (a b : ascii) : Ascii.eqb a b = true <-> a = b.
Proof. apply Ascii.eqb_eq. Qed.

Lemma starts_with_spec (needle s : std_string) :
  starts_with needle s = true <-> exists post, s = needle ++ post.
Proof.
  revert s. induction needle as [|a needle IH]; intros s; simpl.
  - split; eauto.
  - destruct s as [|b s].
    + split; [discriminate | intros [post H]; discriminate].
    + rewrite andb_true_iff, eqb_true_iff, IH. split.
      * intros [-> [post ->]]. eauto.
      * intros [post H]. injection H as -> ->. eauto.
Qed.

Lemma starts_with_app (needle post : std_string) :
  starts_with needle (needle ++ post) = true.
Proof. apply starts_with_spec. eauto. Qed.

Lemma find_at_occurs (needle s : std_string) (i j : nat) :
  find_at needle s i = Some j ->
  exists pre post,
    s = pre ++ needle ++ post /\ j = (i + length pre)%nat
    /\ forall pre' post', s = pre' ++ needle ++ post' ->
                          (length pre <= length pre')%nat.
Proof.
  revert i. induction s as [|c s IH]; intros i; simpl.
  - destruct (starts_with needle []) eqn:E; [|discriminate].
    intros [= <-]. apply starts_with_spec in E as [post E].
    exists [], post. simpl. repeat split; [done | lia | intros; lia].
  - destruct (starts_with needle (c :: s)) eqn:E.
    + intros [= <-]. apply starts_with_spec in E as [post E].
      exists [], post. simpl. repeat split; [done | lia | intros; lia].
    + intros H. apply IH in H as (pre & post & -> & -> & Hmin).
      exists (c :: pre), post. simpl. repeat split; [lia |].
      intros [|c' pre'] post' Heq; simpl in *.
      * rewrite Heq, starts_with_app in E. discriminate.
      * injection Heq as <- Heq. apply Hmin in Heq. lia.
Qed.

Lemma find_at_none (needle s : std_string) (i : nat) :
  find_at needle s i = None ->
  forall pre post, s <> pre ++ needle ++ post.
Proof.
  revert i. induction s as [|c s IH]; intros i; simpl.
  - destruct (starts_with needle []) eqn:E; [discriminate|].
    intros _ [|c pre] post Heq; simpl in *.
    + rewrite Heq, starts_with_app in E. discriminate.
    + discriminate.
  - destruct (starts_with needle (c :: s)) eqn:E; [discriminate|].
    intros H [|c' pre] post Heq; simpl in *.
    + rewrite Heq, starts_with_app in E. discriminate.
    + injection Heq as <- Heq. eapply IH; eauto.
Qed.

Lemma find_0 (s needle : std_string) : find s needle 0 = find_at needle s 0.
Proof. unfold find. simpl. reflexivity. Qed.

(** [find] returns the index of the first occurrence, if there is one. *)
Lemma find_first (s needle : std_string) (i : nat) :
  find s needle 0 = Some i <-> first_occurrence needle s i.
Proof.
  rewrite find_0. split.
  - intros H. apply find_at_occurs in H as (pre & post & -> & -> & Hmin).
    split.
    + exists pre, post. done.
    + intros j (pre' & post' & Heq & <-). eauto.
  - intros [(pre & post & -> & <-) Hmin].
    destruct (find_at needle (pre ++ needle ++ post) 0) as [j|] eqn:E.
    + apply find_at_occurs in E as (pre' & post' & Heq & -> & Hmin').
      f_equal. simpl.
      assert (length pre <= length pre')%nat
        by (apply Hmin; exists pre', post'; done).
      assert (length pre' <= length pre)%nat by (eapply Hmin'; done).
      lia.
    + exfalso. eapply find_at_none; eauto.
Qed.

(** [find] returns [npos] exactly when there is no occurrence. *)
Lemma find_npos (s needle : std_string) :
  find s needle 0 = None <-> forall i, ~ occurs_at needle s i.
Proof.
  rewrite find_0. split.
  - intros H i (pre & post & Heq & _). eapply find_at_none; eauto.
  - intros H. destruct (find_at needle s 0) as [j|] eqn:E; [|done].
    apply find_at_occurs in E as (pre & post & Heq & -> & _).
    exfalso. apply (H (length pre)). exists pre, post. done.
Qed.

Lemma starts_with_quote (c : ascii) (s : std_string) :
  starts_with [dq] (c :: s) = Ascii.eqb dq c.
Proof. simpl. apply andb_true_r. Qed.

Lemma find_at_quote (v post : std_string) (i : nat) :
  dq ∉ v -> find_at [dq] (v ++ dq :: post) i = Some (i + length v)%nat.
Proof.
  revert i. induction v as [|c v IH]; intros i Hv.
  - cbn [app find_at length]. rewrite starts_with_quote, Ascii.eqb_refl.
    f_equal. lia.
  - apply not_elem_of_cons in Hv as [Hc Hv].
    cbn [app find_at length]. rewrite starts_with_quote.
    destruct (Ascii.eqb dq c) eqn:E.
    + apply eqb_true_iff in E. congruence.
    + rewrite IH by done. f_equal. lia.
Qed.

Lemma find_at_quote_none (v : std_string) (i : nat) :
  dq ∉ v -> find_at [dq] v i = None.
Proof.
  revert i. induction v as [|c v IH]; intros i Hv.
  - reflexivity.
  - apply not_elem_of_cons in Hv as [Hc Hv].
    cbn [find_at]. rewrite starts_with_quote.
    destruct (Ascii.eqb dq c) eqn:E.
    + apply eqb_true_iff in E. congruence.
    + apply IH. done.
Qed.

(** The search for the closing quote, from [start]. *)
Lemma find_quote (a v post : std_string) :
  dq ∉ v ->
  find (a ++ v ++ dq :: post) [dq] (length a)
  = Some (length a + length v)%nat.
Proof.
  intros Hv. unfold find. rewrite length_app.
  destruct (Nat.leb_spec (length a) (length a + length (v ++ dq :: post)));
    [|lia].
  rewrite drop_app_length. apply find_at_quote. done.
Qed.

Lemma find_quote_none (a v : std_string) :
  dq ∉ v -> find (a ++ v) [dq] (length a) = None.
Proof.
  intros Hv. unfold find. rewrite length_app.
  destruct (Nat.leb_spec (length a) (length a + length v)); [|lia].
  rewrite drop_app_length. apply find_at_quote_none. done.
Qed.

(** ** The stream-response handler *)

Lemma content_key_length : length content_key = 11%nat.
Proof. reflexivity. Qed.

(** Without a stored sink the handler does nothing at all. *)
Lemma processStreamResponse_no_sink (frag : std_string)
    (w : MLCEngineWrapper) :
  token_callback_ w = None ->
  processStreamResponse frag w = (w, [], Returns tt).
Proof.
  intros H. unfold processStreamResponse, bind, get_this. rewrite H.
  reflexivity.
Qed.

(** Without the key text in the fragment the handler calls nothing. *)
Lemma processStreamResponse_no_key (frag : std_string)
    (w : MLCEngineWrapper) :
  (forall i, ~ occurs_at content_key frag i) ->
  processStreamResponse frag w = (w, [], Returns tt).
Proof.
  intros H. apply find_npos in H.
  unfold processStreamResponse, bind, get_this.
  destruct (token_callback_ w); [|reflexivity]. rewrite H. reflexivity.
Qed.

(** The first content field decides: its raw text, up to the next quote
    byte, is handed to the sink unless it is empty. *)
Lemma processStreamResponse_first_field (w : MLCEngineWrapper) (cb : FnPtr)
    (pre v post : std_string) :
  token_callback_ w = Some cb ->
  first_occurrence content_key (pre ++ content_key ++ v ++ dq :: post)
                   (length pre) ->
  dq ∉ v ->
  processStreamResponse (pre ++ content_key ++ v ++ dq :: post) w
  = (w, if empty v then [] else [EvSink cb (c_str v)], Returns tt).
Proof.
  intros Hcb Hfirst Hv. apply find_first in Hfirst.
  unfold processStreamResponse, bind, get_this. rewrite Hcb, Hfirst.
  assert (Hstart : (length pre + 11)%nat = length (pre ++ content_key))
    by (rewrite length_app; reflexivity).
  rewrite Hstart.
  replace (pre ++ content_key ++ v ++ dq :: post)
    with ((pre ++ content_key) ++ v ++ dq :: post)
    by (rewrite <- app_assoc; reflexivity).
  set (a := pre ++ content_key).
  rewrite find_quote by done.
  unfold substr. rewrite (length_app a).
  destruct (Nat.leb_spec (length a) (length a + length (v ++ dq :: post)));
    [|lia].
  rewrite drop_app_length.
  replace (length a + length v - length a)%nat with (length v) by lia.
  rewrite take_app_length.
  destruct v; reflexivity.
Qed.

(** A content field that is never closed yields nothing. *)
Lemma processStreamResponse_unterminated (w : MLCEngineWrapper)
    (pre v : std_string) :
  first_occurrence content_key (pre ++ content_key ++ v) (length pre) ->
  dq ∉ v ->
  processStreamResponse (pre ++ content_key ++ v) w = (w, [], Returns tt).
Proof.
  intros Hfirst Hv. apply find_first in Hfirst.
  unfold processStreamResponse, bind, get_this.
  destruct (token_callback_ w); [|reflexivity]. rewrite Hfirst.
  assert (Hstart : (length pre + 11)%nat = length (pre ++ content_key))
    by (rewrite length_app; reflexivity).
  rewrite Hstart, app_assoc, find_quote_none by done. reflexivity.
Qed.

(** The handler returns normally, leaves the wrapper as it was, and calls
    the sink once at most. *)
Lemma processStreamResponse_shape (frag : std_string)
    (w : MLCEngineWrapper) :
  exists evs,
    processStreamResponse frag w = (w, evs, Returns tt)
    /\ (length evs <= 1)%nat.
Proof.
  unfold processStreamResponse, bind, get_this.
  destruct (token_callback_ w) as [cb|]; [|exists []; split; simpl; [done|lia]].
  destruct (find frag content_key 0) as [p|] eqn:Hp;
    [|exists []; split; simpl; [done|lia]].
  destruct (find frag [dq] (p + 11)) as [e|] eqn:He;
    [|exists []; split; simpl; [done|lia]].
  assert (Hle : (p + 11 <= length frag)%nat).
  { unfold find in He.
    destruct (Nat.leb_spec (p + 11) (length frag)); [done | discriminate]. }
  unfold substr. destruct (Nat.leb_spec (p + 11) (length frag)); [|lia].
  destruct (empty _); simpl.
  - exists []. split; simpl; [done|lia].
  - eexists. split; [reflexivity|simpl; lia].
Qed.

(** ** Construction *)

Arguments engine_config : simpl never.
Arguments request_json_of : simpl never.
Arguments request_id_of : simpl never.
Arguments mlc_llm_generate : simpl never.

Ltac run_member :=
  unfold MLCEngineWrapper_ctor, MLCEngineWrapper_ctor_body, try_catch, bind,
    getFunction, invoke, modify, get_this, throw, ret, undefined; cbn.

Ltac split_reply :=
  match goal with
  | |- context [match GetFunction ?m ?name with Ok _ => _ | Raise _ => _ end]
    => destruct (GetFunction m name) as [?|?] eqn:?
  end.

Lemma lookups_return_at (m : Module) (name : string) :
  lookups_return m -> In name bound_names ->
  exists found, GetFunction m name = Ok found.
Proof.
  unfold lookups_return. rewrite Forall_forall. intros Hall Hin.
  apply Hall, list_elem_of_In, Hin.
Qed.

Lemma construction_completes_at (registry : Registry)
    (model_path : std_string) (m : Module) :
  registry "mlc.json_ffi.CreateJSONFFIEngine"%string = Some (Ok m) ->
  construction_completes registry model_path ->
  lookups_return m
  /\ GetFunction m "init_background_engine" = Ok true
  /\ init_background_engine m 8 0 = Ok tt
  /\ GetFunction m "reload" = Ok true
  /\ reload m (engine_config model_path) = Ok tt.
Proof.
  intros Hreg (m' & Hm & H). assert (m' = m) by congruence.
  subst m'. exact H.
Qed.

Lemma null_method_called_at (registry : Registry)
    (model_path : std_string) (m : Module) :
  registry "mlc.json_ffi.CreateJSONFFIEngine"%string = Some (Ok m) ->
  null_method_called registry model_path ->
  lookups_return m
  /\ (GetFunction m "init_background_engine" = Ok false
      \/ (GetFunction m "init_background_engine" = Ok true
          /\ init_background_engine m 8 0 = Ok tt
          /\ GetFunction m "reload" = Ok false)).
Proof.
  intros Hreg (m' & Hm & H). assert (m' = m) by congruence.
  subst m'. exact H.
Qed.

(** A construction cannot both run to its end and reach the call of a
    missing method. *)
Lemma completes_not_null_called (registry : Registry)
    (model_path : std_string) :
  construction_completes registry model_path ->
  ~ null_method_called registry model_path.
Proof.
  intros (m & Hreg & _ & Hi & _ & Hr & _) Hn.
  destruct (null_method_called_at _ _ _ Hreg Hn) as (_ & [H | (_ & _ & H)]);
    congruence.
Qed.

(** Construction fully succeeded, as the specification words it, is a
    construction that ran to its end with all six methods found. *)
Lemma succeeds_completes (registry : Registry) (model_path : std_string) :
  construction_succeeds registry model_path ->
  construction_completes registry model_path.
Proof.
  intros (m & Hreg & Hall & Hi & Hr). exists m.
  split; [exact Hreg|].
  split; [eapply Forall_impl; [exact Hall|]; simpl; eauto|].
  unfold bound_names in Hall.
  repeat match goal with
         | H : Forall _ (_ :: _) |- _ => apply Forall_cons in H as [? H]
         end.
  auto.
Qed.

(** The constructor never throws and stores no sink.  It has three ways
    to end: it runs to its end and leaves an initialized wrapper; or a
    step fails with an exception and it leaves an uninitialized one; or
    it calls a method the engine does not have. *)
Lemma construct_cases (registry : Registry) (model_path : std_string) :
  (exists m,
      registry "mlc.json_ffi.CreateJSONFFIEngine"%string = Some (Ok m)
      /\ construction_completes registry model_path
      /\ MLCEngineWrapper_ctor registry model_path
         = (initialized_wrapper m model_path,
            construction_events model_path, Returns tt))
  \/ (~ construction_completes registry model_path
      /\ ~ null_method_called registry model_path
      /\ exists w evs,
          MLCEngineWrapper_ctor registry model_path = (w, evs, Returns tt)
          /\ is_initialized_ w = false /\ token_callback_ w = None)
  \/ (~ construction_completes registry model_path
      /\ null_method_called registry model_path
      /\ exists w evs,
          MLCEngineWrapper_ctor registry model_path = (w, evs, Undefined)
          /\ is_initialized_ w = false /\ token_callback_ w = None).
Proof.
  destruct (registry "mlc.json_ffi.CreateJSONFFIEngine"%string)
    as [[m|e]|] eqn:Hreg.
  2,3: right; left;
    (split; [intros (m' & Hm & _); congruence|]);
    (split; [intros (m' & Hm & _); congruence|]);
    run_member; rewrite Hreg; cbn; eauto.
  pose proof (construction_completes_at registry model_path m Hreg) as Hc.
  pose proof (null_method_called_at registry model_path m Hreg) as Hn.
  assert (Hraise : forall name, In name bound_names ->
            forall e, GetFunction m name = Raise e -> ~ lookups_return m).
  { intros name Hin e He Hall.
    destruct (lookups_return_at m name Hall Hin) as [found Hf].
    congruence. }
  run_member. rewrite Hreg. cbn.
  repeat (split_reply; cbn;
    [ | right; left;
        assert (Hno : ~ lookups_return m)
          by (eapply Hraise; [|eassumption]; simpl; tauto);
        split; [tauto|]; split; [tauto|]; eauto ]).
  assert (Hall : lookups_return m).
  { unfold lookups_return, bound_names. repeat constructor; eauto. }
  match goal with
  | H : GetFunction m "init_background_engine" = Ok ?found |- _ =>
      destruct found; cbn
  end.
  2: { right; right. split; [intros H; apply Hc in H; intuition congruence|].
       split; [exists m; auto|]. eauto. }
  destruct (init_background_engine m 8 0) as [[]|e] eqn:Hinit; cbn.
  2: { right; left.
       split; [intros H; apply Hc in H; intuition congruence|].
       split; [intros H; apply Hn in H; intuition congruence|]. eauto. }
  match goal with
  | H : GetFunction m "reload" = Ok ?found |- _ => destruct found; cbn
  end.
  2: { right; right. split; [intros H; apply Hc in H; intuition congruence|].
       split; [exists m; auto 10|]. eauto. }
  destruct (reload m (engine_config model_path)) as [[]|e] eqn:Hreload; cbn.
  2: { right; left.
       split; [intros H; apply Hc in H; intuition congruence|].
       split; [intros H; apply Hn in H; intuition congruence|]. eauto. }
  left. exists m. split; [done|]. split; [exists m; auto 10|].
  unfold initialized_wrapper, looked_up.
  repeat match goal with
         | H : GetFunction m _ = _ |- _ => rewrite H; clear H
         end.
  reflexivity.
Qed.

Lemma construct_never_throws (registry : Registry)
    (model_path : std_string) (e : string) :
  outcome (MLCEngineWrapper_ctor registry model_path) <> Throws e.
Proof.
  destruct (construct_cases registry model_path)
    as [(m & _ & _ & ->) | [(_ & _ & w & evs & -> & _)
                           | (_ & _ & w & evs & -> & _)]]; discriminate.
Qed.

Lemma construct_stores_no_sink (registry : Registry)
    (model_path : std_string) :
  token_callback_ (final (MLCEngineWrapper_ctor registry model_path)) = None.
Proof.
  destruct (construct_cases registry model_path)
    as [(m & _ & _ & ->) | [(_ & _ & w & evs & -> & _ & H)
                           | (_ & _ & w & evs & -> & _ & H)]];
    [reflexivity | exact H | exact H].
Qed.

Lemma construct_initialized (registry : Registry)
    (model_path : std_string) :
  is_initialized_ (final (MLCEngineWrapper_ctor registry model_path)) = true
  <-> construction_completes registry model_path.
Proof.
  destruct (construct_cases registry model_path)
    as [(m & _ & Hs & ->) | [(Hf & _ & w & evs & -> & Hi & _)
                            | (Hf & _ & w & evs & -> & Hi & _)]]; cbn.
  - tauto.
  - rewrite Hi. split; [discriminate | tauto].
  - rewrite Hi. split; [discriminate | tauto].
Qed.

(** The two methods the constructor calls are bound in every wrapper it
    ran to its end on; the two [generate] calls are bound when the engine
    has them. *)
Lemma initialized_wrapper_called (registry : Registry) (m : Module)
    (model_path : std_string) :
  registry "mlc.json_ffi.CreateJSONFFIEngine"%string = Some (Ok m) ->
  construction_completes registry model_path ->
  is_Some (init_background_engine_ (initialized_wrapper m model_path))
  /\ is_Some (reload_ (initialized_wrapper m model_path)).
Proof.
  intros Hreg Hc.
  destruct (construction_completes_at _ _ _ Hreg Hc)
    as (_ & Hi & _ & Hr & _).
  cbn. unfold looked_up. rewrite Hi, Hr. split; eexists; reflexivity.
Qed.

Lemma initialized_wrapper_bound (m : Module) (model_path : std_string) :
  GetFunction m "chat_completion" = Ok true ->
  GetFunction m "get_last_error" = Ok true ->
  bound (initialized_wrapper m model_path).
Proof.
  intros Hcc Hgle _. cbn. unfold looked_up. rewrite Hcc, Hgle.
  split; eexists; reflexivity.
Qed.

(** ** Generation *)

Section ABI.

Variable float : Type.
Variable to_string_float : float -> std_string.

Lemma generate_uninitialized (w : MLCEngineWrapper) prompt max_tokens
    temperature callback now :
  is_initialized_ w = false ->
  generate to_string_float prompt max_tokens temperature callback now w
  = (w, [], Returns (-1)).
Proof.
  intros H. unfold generate, bind, get_this. rewrite H. reflexivity.
Qed.

(** What an initialized wrapper does in [generate], by the reply [reply]
    of [chat_completion]: the events and the code. *)
Lemma generate_initialized (w : MLCEngineWrapper) prompt max_tokens
    temperature callback now cc gle reply :
  is_initialized_ w = true ->
  chat_completion_ w = Some cc ->
  get_last_error_ w = Some gle ->
  cc (request_json_of to_string_float prompt max_tokens temperature)
     (request_id_of now) = reply ->
  generate to_string_float prompt max_tokens temperature callback now w
  = (set_token_callback_ callback w,
     chat_call to_string_float prompt max_tokens temperature now
     :: match reply with
        | Ok false => [EvCall "get_last_error" []]
        | _ => []
        end,
     Returns match reply with Ok true => 0 | _ => -2 end).
Proof.
  intros Hi Hcc Hgle Hreply.
  unfold generate, try_catch, bind, invoke, modify, get_this, ret, chat_call.
  rewrite Hi. cbn. rewrite Hcc. cbn. rewrite Hreply.
  destruct reply as [[|]|e]; cbn; [reflexivity | | reflexivity].
  rewrite Hgle. destruct gle; reflexivity.
Qed.

(** ** The C ABI *)

Lemma mlc_llm_generate_null (engine : option positive)
    (prompt : option std_string) max_tokens temperature callback now
    (heap : gmap positive MLCEngineWrapper) :
  engine = None \/ prompt = None ->
  mlc_llm_generate to_string_float engine prompt max_tokens temperature
    callback now heap
  = (heap, [], Returns (-1)).
Proof.
  intros [-> | ->]; [reflexivity|]. destruct engine; reflexivity.
Qed.

Lemma mlc_llm_generate_uninitialized (p : positive) (w : MLCEngineWrapper)
    prompt max_tokens temperature callback now
    (heap : gmap positive MLCEngineWrapper) :
  heap !! p = Some w -> is_initialized_ w = false ->
  mlc_llm_generate to_string_float (Some p) (Some prompt) max_tokens
    temperature callback now heap
  = (<[p := w]> heap, [], Returns (-1)).
Proof.
  intros Hp Hi. unfold mlc_llm_generate.
  rewrite Hp, generate_uninitialized by done. reflexivity.
Qed.

Lemma mlc_llm_generate_initialized (p : positive) (w : MLCEngineWrapper)
    prompt max_tokens temperature callback now cc gle reply
    (heap : gmap positive MLCEngineWrapper) :
  heap !! p = Some w ->
  is_initialized_ w = true ->
  chat_completion_ w = Some cc ->
  get_last_error_ w = Some gle ->
  cc (request_json_of to_string_float prompt max_tokens temperature)
     (request_id_of now) = reply ->
  mlc_llm_generate to_string_float (Some p) (Some prompt) max_tokens
    temperature callback now heap
  = (<[p := set_token_callback_ callback w]> heap,
     chat_call to_string_float prompt max_tokens temperature now
     :: match reply with
        | Ok false => [EvCall "get_last_error" []]
        | _ => []
        end,
     Returns match reply with Ok true => 0 | _ => -2 end).
Proof.
  intros Hp Hi Hcc Hgle Hreply. unfold mlc_llm_generate.
  rewrite Hp, (generate_initialized w _ _ _ _ _ cc gle reply) by done.
  destruct reply as [[|]|e]; reflexivity.
Qed.

(** C4.  Every call of [mlc_llm_generate] on a null or live handle
    returns -1, -2 or 0.  It returns -1 exactly when the handle is null,
    the prompt is null or the wrapper is uninitialized.  On an initialized
    wrapper it returns -2 exactly when [chat_completion] reports failure
    or throws, with [get_last_error] retrieved after a reported failure
    and only then, and it returns 0 exactly when [chat_completion]
    accepts, nothing being called after it. *)
Theorem mlc_llm_generate_return_codes (engine : option positive)
    (prompt : option std_string) (max_tokens : Z) (temperature : float)
    (callback : option FnPtr) (now : Z)
    (heap : gmap positive MLCEngineWrapper) :
  valid_handle heap engine ->
  let r := mlc_llm_generate to_string_float engine prompt max_tokens
             temperature callback now heap in
  (outcome r = Returns (-1) \/ outcome r = Returns (-2)
   \/ outcome r = Returns 0)
  /\ (outcome r = Returns (-1)
      <-> engine = None \/ prompt = None
          \/ exists p w, engine = Some p /\ heap !! p = Some w
                         /\ is_initialized_ w = false)
  /\ forall p w text cc,
       engine = Some p -> prompt = Some text -> heap !! p = Some w ->
       is_initialized_ w = true -> chat_completion_ w = Some cc ->
       let reply :=
         cc (request_json_of to_string_float text max_tokens temperature)
            (request_id_of now) in
       let chat := chat_call to_string_float text max_tokens temperature
                     now in
       (outcome r = Returns (-2)
        <-> reply = Ok false \/ exists e, reply = Raise e)
       /\ (outcome r = Returns 0 <-> reply = Ok true)
       /\ (reply = Ok false ->
           events r = [chat; EvCall "get_last_error" []])
       /\ (reply <> Ok false -> events r = [chat]).
Proof.
  intros Hvalid r.
  destruct engine as [p|].
  2: { subst r. cbn. split; [tauto|]. split; [tauto|]. intros; discriminate. }
  destruct prompt as [text|].
  2: { subst r. cbn. split; [tauto|]. split; [tauto|]. intros; discriminate. }
  destruct Hvalid as (w & Hw & Hb).
  destruct (is_initialized_ w) eqn:Hi.
  - destruct (Hb Hi) as [[cc Hcc] [gle Hgle]].
    pose proof (mlc_llm_generate_initialized p w text max_tokens temperature
                  callback now cc gle _ heap Hw Hi Hcc Hgle eq_refl) as Hr.
    fold r in Hr. rewrite Hr. cbn.
    split; [destruct (cc _ _) as [[|]|]; tauto|].
    split.
    + split; [destruct (cc _ _) as [[|]|]; discriminate|].
      intros [H | [H | (p' & w' & Hp & Hw' & Hi')]]; [discriminate..|].
      injection Hp as <-. congruence.
    + intros p' w' text' cc' Hp Ht Hw' _ Hcc'.
      injection Hp as <-. injection Ht as <-.
      assert (w' = w) by congruence. subst w'.
      assert (cc' = cc) by congruence. subst cc'.
      destruct (cc _ _) as [[|]|e]; repeat split;
        try discriminate; try tauto; try congruence; eauto;
        try (intros [H | [e' H]]; discriminate).
  - pose proof (mlc_llm_generate_uninitialized p w text max_tokens
                  temperature callback now heap Hw Hi) as Hr.
    fold r in Hr. rewrite Hr. cbn.
    split; [tauto|]. split; [split; eauto 10|].
    intros p' w' text' cc' Hp _ Hw' Hi'. injection Hp as <-. congruence.
Qed.

Lemma request_json_of_split (prompt : std_string) (max_tokens : Z)
    (temperature : float) :
  request_json_of to_string_float prompt max_tokens temperature
  = request_head prompt ++ to_string_Z max_tokens ++ request_middle
    ++ to_string_float temperature ++ request_tail.
Proof.
  unfold request_json_of, request_head.
  rewrite <- !app_assoc. reflexivity.
Qed.

(** C9.  [generate] validates neither number: for every [max_tokens] and
    every [temperature], an initialized wrapper puts their
    [std::to_string] texts as they are into the request, between texts
    that do not depend on them, submits the request to [chat_completion]
    first of all, and returns 0 when that call accepts and -2 otherwise. *)
Theorem generate_forwards_numbers_unchecked (p : positive)
    (w : MLCEngineWrapper) (prompt : std_string) (max_tokens : Z)
    (temperature : float) (callback : option FnPtr) (now : Z)
    (cc : std_string -> std_string -> Reply bool)
    (heap : gmap positive MLCEngineWrapper) :
  heap !! p = Some w ->
  is_initialized_ w = true ->
  chat_completion_ w = Some cc ->
  is_Some (get_last_error_ w) ->
  let r := mlc_llm_generate to_string_float (Some p) (Some prompt)
             max_tokens temperature callback now heap in
  let request :=
    request_head prompt ++ to_string_Z max_tokens ++ request_middle
    ++ to_string_float temperature ++ request_tail in
  hd_error (events r)
  = Some (EvCall "chat_completion" [AStr request; AStr (request_id_of now)])
  /\ outcome r
     = Returns match cc request (request_id_of now) with
               | Ok true => 0
               | _ => -2
               end.
Proof.
  intros Hp Hi Hcc [gle Hgle] r request.
  subst r.
  rewrite (mlc_llm_generate_initialized p w _ _ _ _ _ cc gle _ heap
             Hp Hi Hcc Hgle eq_refl).
  unfold chat_call.
  rewrite request_json_of_split. fold request. split; reflexivity.
Qed.

Lemma generate_stores_callback (w : MLCEngineWrapper) prompt max_tokens
    temperature callback now :
  is_initialized_ w = true ->
  token_callback_
    (final (generate to_string_float prompt max_tokens temperature callback
              now w))
  = callback.
Proof.
  intros Hi.
  unfold generate, try_catch, bind, invoke, modify, get_this, ret.
  rewrite Hi. cbn.
  destruct (chat_completion_ w) as [cc|]; cbn; [|reflexivity].
  destruct (cc _ _) as [[|]|e]; cbn; try reflexivity.
  destruct (get_last_error_ w) as [[|]|]; reflexivity.
Qed.

Lemma no_sink_stored_null (w : MLCEngineWrapper) :
  no_sink_stored to_string_float w -> token_callback_ w = None.
Proof.
  induction 1 as [registry model_path | w prompt mt t now Hi
                 | w prompt mt t cb now Hw IH Hi | w frag Hw IH].
  - apply construct_stores_no_sink.
  - apply generate_stores_callback. exact Hi.
  - rewrite generate_uninitialized by done. exact IH.
  - rewrite processStreamResponse_no_sink by done. exact IH.
Qed.

(** C10.  As long as no call of [generate] has stored a sink, or after a
    null callback was stored, the stream-response handler returns at once
    for every fragment: it invokes nothing and changes nothing. *)
Theorem stream_without_sink_returns_at_once (w : MLCEngineWrapper)
    (frag : std_string) :
  no_sink_stored to_string_float w ->
  processStreamResponse frag w = (w, [], Returns tt).
Proof.
  intros H. apply processStreamResponse_no_sink, no_sink_stored_null, H.
Qed.

End ABI.

Lemma fresh_address_unused (heap : gmap positive MLCEngineWrapper) :
  heap !! fresh (dom heap) = None.
Proof. apply not_elem_of_dom, is_fresh. Qed.

Lemma mlc_llm_create_engine_success (registry : Registry)
    (model_path : std_string) (heap : gmap positive MLCEngineWrapper)
    (m : Module) :
  registry "mlc.json_ffi.CreateJSONFFIEngine"%string = Some (Ok m) ->
  construction_completes registry model_path ->
  mlc_llm_create_engine registry model_path heap
  = (<[fresh (dom heap) := initialized_wrapper m model_path]> heap,
     construction_events model_path, Returns (Some (fresh (dom heap)))).
Proof.
  intros Hreg Hs. unfold mlc_llm_create_engine.
  destruct (construct_cases registry model_path)
    as [(m' & Hreg' & _ & ->) | [(Hf & _) | (Hf & _)]]; [|tauto|tauto].
  assert (m' = m) by congruence. subst m'. reflexivity.
Qed.

Lemma mlc_llm_create_engine_failure (registry : Registry)
    (model_path : std_string) (heap : gmap positive MLCEngineWrapper) :
  ~ construction_completes registry model_path ->
  ~ null_method_called registry model_path ->
  exists evs,
    mlc_llm_create_engine registry model_path heap
    = (heap, evs, Returns None).
Proof.
  intros Hf Hn. unfold mlc_llm_create_engine.
  destruct (construct_cases registry model_path)
    as [(m & _ & Hs & _) | [(_ & _ & w & evs & -> & Hi & _) | (_ & H & _)]];
    [tauto| |tauto].
  unfold new_, delete_, isInitialized. rewrite lookup_insert_eq, Hi. cbn.
  unfold MLCEngineWrapper_dtor, bind, get_this, ret. rewrite Hi. cbn.
  rewrite delete_insert_eq, delete_id by apply fresh_address_unused.
  eauto.
Qed.

Lemma mlc_llm_create_engine_undefined (registry : Registry)
    (model_path : std_string) (heap : gmap positive MLCEngineWrapper) :
  null_method_called registry model_path ->
  exists evs,
    mlc_llm_create_engine registry model_path heap
    = (heap, evs, Undefined).
Proof.
  intros Hn. unfold mlc_llm_create_engine.
  destruct (construct_cases registry model_path)
    as [(m & _ & Hs & _) | [(_ & H & _) | (_ & _ & w & evs & -> & _)]];
    [|tauto|eauto].
  apply completes_not_null_called in Hs. tauto.
Qed.

(** No call of [mlc_llm_generate] with a prompt on an initialized wrapper
    returns -1, whatever its methods are. *)
Lemma mlc_llm_generate_accepted {float : Type}
    (to_string_float : float -> std_string) (p : positive)
    (w : MLCEngineWrapper) (heap : gmap positive MLCEngineWrapper)
    prompt max_tokens temperature callback now :
  heap !! p = Some w -> is_initialized_ w = true ->
  outcome (mlc_llm_generate to_string_float (Some p) (Some prompt)
             max_tokens temperature callback now heap)
  <> Returns (-1).
Proof.
  intros Hp Hi. unfold mlc_llm_generate. rewrite Hp.
  unfold generate, try_catch, bind, invoke, modify, get_this, ret.
  rewrite Hi. cbn.
  destruct (chat_completion_ w) as [cc|]; cbn; [|discriminate].
  destruct (cc _ _) as [[|]|e]; cbn; try discriminate.
  destruct (get_last_error_ w) as [[|]|]; discriminate.
Qed.

(** Scenario: the engine has no [chat_completion].  The handle is not
    null and the wrapper behind it is initialized, yet its
    [chat_completion_] is the null [PackedFunc], and [mlc_llm_generate]
    on it calls through it. *)
Lemma create_engine_without_chat_completion :
  let registry := stub_registry (engine_without "chat_completion") in
  let r := mlc_llm_create_engine registry (lit "m") ∅ in
  let p := fresh (dom (∅ : gmap positive MLCEngineWrapper)) in
  outcome r = Returns (Some p)
  /\ (exists w,
        final r !! p = Some w
        /\ is_initialized_ w = true /\ chat_completion_ w = None)
  /\ outcome (mlc_llm_generate stub_to_string_float (Some p)
                (Some (lit "hi")) 16 0 None 0 (final r))
     = Undefined.
Proof.
  cbv zeta. split; [reflexivity|]. split.
  - eexists. split; [apply lookup_insert_eq|]. split; reflexivity.
  - unfold mlc_llm_generate.
    replace (final _ !! _)
      with (Some (initialized_wrapper (engine_without "chat_completion")
                    (lit "m")))
      by (symmetry; apply lookup_insert_eq).
    reflexivity.
Qed.

(** Scenario: the engine has no [init_background_engine]; the constructor
    calls through the null [PackedFunc] after the factory. *)
Lemma create_engine_without_init :
  mlc_llm_create_engine
    (stub_registry (engine_without "init_background_engine")) (lit "m") ∅
  = (∅, [EvCall "mlc.json_ffi.CreateJSONFFIEngine" []], Undefined).
Proof. reflexivity. Qed.

Lemma handle_iff_methods_bound_counterexample : ~ handle_iff_methods_bound.
Proof.
  intros H.
  destruct (H (stub_registry (engine_without "chat_completion")) (lit "m") ∅)
    as [Hs _].
  destruct Hs as (m & Hreg & Hall & _).
  - eexists. reflexivity.
  - injection Hreg as <-. unfold bound_names in Hall.
    apply Forall_cons in Hall as [_ Hall].
    apply Forall_cons in Hall as [_ Hall].
    apply Forall_cons in Hall as [Hcc _].
    discriminate Hcc.
Qed.

(** Every way [mlc_llm_create_engine] can end.  It never throws.  It
    returns a non-null handle exactly when construction ran to its end;
    the lookups' results are not tested, so of the six methods only the
    two the constructor calls are then sure to be bound, and all six are
    when construction fully succeeded.  When a step of the construction
    fails with an exception the result is null and the free store is as
    before.  The call does not return exactly when the constructor
    reaches the call of [init_background_engine] or [reload] on an engine
    that has no such method. *)
Lemma mlc_llm_create_engine_outcomes (registry : Registry)
    (model_path : std_string) (heap : gmap positive MLCEngineWrapper) :
  let r := mlc_llm_create_engine registry model_path heap in
  (forall e, outcome r <> Throws e)
  /\ ((exists p, outcome r = Returns (Some p))
      <-> construction_completes registry model_path)
  /\ (outcome r = Undefined <-> null_method_called registry model_path)
  /\ (~ construction_completes registry model_path ->
      ~ null_method_called registry model_path ->
      outcome r = Returns None /\ final r = heap)
  /\ (outcome r = Returns None -> final r = heap)
  /\ (construction_succeeds registry model_path ->
      exists p w,
        outcome r = Returns (Some p) /\ final r !! p = Some w
        /\ is_Some (chat_completion_ w)
        /\ is_Some (run_background_loop_ w)
        /\ is_Some (run_background_stream_back_loop_ w)
        /\ is_Some (get_last_error_ w)
        /\ valid_handle (final r) (Some p))
  /\ forall p, outcome r = Returns (Some p) ->
       heap !! p = None
       /\ exists w,
            final r !! p = Some w /\ is_initialized_ w = true
            /\ is_Some (init_background_engine_ w) /\ is_Some (reload_ w)
            /\ forall (float : Type) (to_string_float : float -> std_string)
                 prompt max_tokens temperature callback now,
                 outcome (mlc_llm_generate to_string_float (Some p)
                            (Some prompt) max_tokens temperature callback
                            now (final r))
                 <> Returns (-1).
Proof.
  intros r.
  assert (Hsucc : construction_succeeds registry model_path ->
            construction_completes registry model_path)
    by apply succeeds_completes.
  destruct (construct_cases registry model_path)
    as [(m & Hreg & Hs & _) | [(Hf & Hn & _) | (Hf & Hn & _)]].
  - pose proof (completes_not_null_called _ _ Hs) as Hn.
    subst r.
    rewrite (mlc_llm_create_engine_success _ _ _ m) by done. cbn.
    split; [discriminate|]. split; [split; eauto|].
    split; [split; [discriminate | tauto]|].
    split; [tauto|]. split; [discriminate|]. split.
    + intros (m' & Hreg' & Hall & _).
      assert (m' = m) by congruence. subst m'.
      unfold bound_names in Hall.
      repeat match goal with
             | H : Forall _ (_ :: _) |- _ => apply Forall_cons in H as [? H]
             end.
      exists (fresh (dom heap)), (initialized_wrapper m model_path).
      split; [reflexivity|]. split; [apply lookup_insert_eq|].
      cbn. unfold looked_up.
      repeat match goal with
             | H : GetFunction m _ = Ok true |- _ => rewrite H
             end.
      repeat (split; [eexists; reflexivity|]).
      exists (initialized_wrapper m model_path).
      split; [apply lookup_insert_eq|].
      apply initialized_wrapper_bound; assumption.
    + intros p [= <-]. split; [apply fresh_address_unused|].
      exists (initialized_wrapper m model_path).
      split; [apply lookup_insert_eq|]. split; [reflexivity|].
      destruct (initialized_wrapper_called _ _ _ Hreg Hs) as [Hi Hr].
      split; [exact Hi|]. split; [exact Hr|].
      intros float to_string_float prompt max_tokens temperature callback
        now.
      apply mlc_llm_generate_accepted
        with (w := initialized_wrapper m model_path);
        [apply lookup_insert_eq | reflexivity].
  - destruct (mlc_llm_create_engine_failure _ model_path heap Hf Hn)
      as [evs Hr].
    subst r. rewrite Hr. cbn.
    split; [discriminate|].
    split; [split; [intros [p H]; discriminate | tauto]|].
    split; [split; [discriminate | tauto]|].
    split; [tauto|]. split; [reflexivity|]. split; [tauto|].
    intros p H. discriminate.
  - destruct (mlc_llm_create_engine_undefined _ model_path heap Hn)
      as [evs Hr].
    subst r. rewrite Hr. cbn.
    split; [discriminate|].
    split; [split; [intros [p H]; discriminate | tauto]|].
    split; [tauto|].
    split; [tauto|]. split; [discriminate|]. split; [tauto|].
    intros p H. discriminate.
Qed.

Lemma provided_succeeds (registry : Registry) (model_path : std_string) :
  methods_provided registry ->
  construction_completes registry model_path ->
  construction_succeeds registry model_path.
Proof.
  intros Hprov (m & Hreg & Hall & _ & Hi & _ & Hr). exists m.
  split; [exact Hreg|]. split; [|tauto].
  specialize (Hprov m Hreg). unfold lookups_return in Hall.
  rewrite Forall_forall in *. intros name Hin.
  destruct (Hall name Hin) as [[|] Hfound]; [exact Hfound|].
  destruct (Hprov name Hin Hfound).
Qed.

Lemma provided_not_null_called (registry : Registry)
    (model_path : std_string) :
  methods_provided registry -> ~ null_method_called registry model_path.
Proof.
  intros Hprov (m & Hreg & _ & Hnull).
  specialize (Hprov m Hreg). rewrite Forall_forall in Hprov.
  destruct Hnull as [H | (_ & _ & H)];
    revert H; apply Hprov; unfold bound_names; set_solver.
Qed.

(** C5.  Provided the engine has every method the constructor looks up
    (the results of the lookups are not tested), [mlc_llm_create_engine]
    always returns; it returns a non-null handle exactly when
    construction fully succeeded; after any failure it returns null and
    the free store is as before; and behind every non-null handle it
    returns there is, at a new address, a wrapper with [is_initialized_]
    set and the methods of [generate] bound, on which no call of
    [mlc_llm_generate] with a prompt returns -1. *)
Theorem mlc_llm_create_engine_handle (registry : Registry)
    (model_path : std_string) (heap : gmap positive MLCEngineWrapper) :
  methods_provided registry ->
  let r := mlc_llm_create_engine registry model_path heap in
  (exists h, outcome r = Returns h)
  /\ ((exists p, outcome r = Returns (Some p))
      <-> construction_succeeds registry model_path)
  /\ (~ construction_succeeds registry model_path ->
      outcome r = Returns None /\ final r = heap)
  /\ forall p, outcome r = Returns (Some p) ->
       heap !! p = None
       /\ exists w,
            final r !! p = Some w /\ is_initialized_ w = true /\ bound w
            /\ forall (float : Type) (to_string_float : float -> std_string)
                 prompt max_tokens temperature callback now,
                 outcome (mlc_llm_generate to_string_float (Some p)
                            (Some prompt) max_tokens temperature callback
                            now (final r))
                 <> Returns (-1).
Proof.
  intros Hprov r.
  pose proof (provided_succeeds registry model_path Hprov) as Hup.
  pose proof (succeeds_completes registry model_path) as Hdown.
  pose proof (provided_not_null_called registry model_path Hprov) as Hnn.
  destruct (construct_cases registry model_path)
    as [(m & Hreg & Hs & _) | [(Hf & Hn & _) | (_ & Hn & _)]];
    [| |tauto].
  - subst r.
    rewrite (mlc_llm_create_engine_success _ _ _ m) by done. cbn.
    split; [eauto|]. split; [split; eauto|]. split; [tauto|].
    intros p [= <-]. split; [apply fresh_address_unused|].
    exists (initialized_wrapper m model_path).
    split; [apply lookup_insert_eq|]. split; [reflexivity|]. split.
    + destruct (Hup Hs) as (m' & Hreg' & Hall & _).
      assert (m' = m) by congruence. subst m'.
      rewrite Forall_forall in Hall.
      apply initialized_wrapper_bound; apply Hall; unfold bound_names;
        set_solver.
    + intros float to_string_float prompt max_tokens temperature callback
        now.
      apply mlc_llm_generate_accepted
        with (w := initialized_wrapper m model_path);
        [apply lookup_insert_eq | reflexivity].
  - destruct (mlc_llm_create_engine_failure _ model_path heap Hf Hn)
      as [evs Hr].
    subst r. rewrite Hr. cbn.
    split; [eauto|]. split; [split; [intros [p H]; discriminate | tauto]|].
    split; [tauto|]. intros p H. discriminate.
Qed.

Lemma mlc_llm_create_engine_handle_witness :
  methods_provided (stub_registry (stub_engine (Ok true) (Ok [])))
  /\ exists p,
       outcome (mlc_llm_create_engine
                  (stub_registry (stub_engine (Ok true) (Ok []))) (lit "m")
                  ∅)
       = Returns (Some p).
Proof.
  assert (Hprov : methods_provided
                    (stub_registry (stub_engine (Ok true) (Ok [])))).
  { intros m H. unfold stub_registry in H. simpl in H. injection H as <-.
    repeat constructor; discriminate. }
  split; [exact Hprov|].
  apply (mlc_llm_create_engine_handle _ (lit "m") ∅ Hprov).
  exists (stub_engine (Ok true) (Ok [])).
  split; [reflexivity|]. split; [repeat constructor|].
  split; reflexivity.
Defined.

(** C8.  [mlc_llm_destroy_engine] on the null handle returns, leaves the
    free store as it was (nothing is destroyed) and calls nothing: no
    engine method, no host callback. *)
Theorem mlc_llm_destroy_engine_null
    (heap : gmap positive MLCEngineWrapper) :
  mlc_llm_destroy_engine None heap = (heap, [], Returns tt).
Proof. reflexivity. Qed.

(** ** Deltas *)

Lemma plain_not_quote (v : std_string) :
  forallb plain v = true -> dq ∉ v.
Proof.
  induction v as [|c v IH]; simpl; intros H.
  - apply not_elem_of_nil.
  - apply andb_true_iff in H as [Hc Hv]. apply not_elem_of_cons. split.
    + intros <-. discriminate.
    + apply IH, Hv.
Qed.

Lemma plain_step (c : ascii) :
  plain c = true -> str_step SPlain c = Some (SPlain, [c]).
Proof.
  unfold plain, str_step. intros H.
  apply andb_true_iff in H as [H H3]. apply andb_true_iff in H as [H1 H2].
  apply negb_true_iff in H1, H2, H3. rewrite H1, H2, H3. reflexivity.
Qed.

Lemma plain_eqb_quote (c : ascii) : plain c = true -> Ascii.eqb c dq = false.
Proof.
  unfold plain. intros H. apply andb_true_iff in H as [H _].
  apply andb_true_iff in H as [H _]. apply negb_true_iff in H. exact H.
Qed.

Lemma read_string_plain (v post : std_string) :
  forallb plain v = true ->
  read_string SPlain (v ++ dq :: post) = Some (v, post).
Proof.
  induction v as [|c v IH]; intros H.
  - reflexivity.
  - cbn [forallb] in H. apply andb_true_iff in H as [Hc Hv].
    cbn [app read_string is_SPlain andb].
    rewrite (plain_eqb_quote c Hc), (plain_step c Hc), (IH Hv).
    reflexivity.
Qed.

Lemma c_str_plain (v : std_string) :
  forallb plain v = true -> c_str v = v.
Proof.
  induction v as [|c v IH]; simpl; intros H; [reflexivity|].
  apply andb_true_iff in H as [Hc Hv]. rewrite (IH Hv).
  destruct (Ascii.eqb c zero) eqn:E; [|reflexivity].
  apply eqb_true_iff in E. subst c. discriminate.
Qed.

Lemma escape_byte_plain (c : ascii) : plain c = true -> escape_byte c = [c].
Proof.
  unfold plain. intros Hc.
  apply andb_true_iff in Hc as [Hc H3]. apply andb_true_iff in Hc as [H1 H2].
  apply negb_true_iff in H1, H2, H3. unfold escape_byte.
  rewrite H1, H2, H3.
  destruct (Ascii.eqb c "008") eqn:E1;
    [apply eqb_true_iff in E1; subst c; discriminate|].
  destruct (Ascii.eqb c "012") eqn:E2;
    [apply eqb_true_iff in E2; subst c; discriminate|].
  destruct (Ascii.eqb c "010") eqn:E3;
    [apply eqb_true_iff in E3; subst c; discriminate|].
  destruct (Ascii.eqb c "013") eqn:E4;
    [apply eqb_true_iff in E4; subst c; discriminate|].
  destruct (Ascii.eqb c "009") eqn:E5;
    [apply eqb_true_iff in E5; subst c; discriminate|].
  reflexivity.
Qed.

Lemma json_escape_plain (v : std_string) :
  forallb plain v = true -> json_escape v = v.
Proof.
  unfold json_escape. induction v as [|c v IH]; intros H; [reflexivity|].
  cbn [forallb] in H. apply andb_true_iff in H as [Hc Hv].
  cbn [flat_map]. rewrite (IH Hv), (escape_byte_plain c Hc). reflexivity.
Qed.

(** Any text followed by a quote splits at its first quote. *)
Lemma until_quote_split (s post : std_string) :
  exists post',
    s ++ dq :: post = until_quote s ++ dq :: post' /\ dq ∉ until_quote s.
Proof.
  induction s as [|c s (post' & IH & Hn)]; simpl.
  - exists post. split; [reflexivity | apply not_elem_of_nil].
  - destruct (Ascii.eqb c dq) eqn:E.
    + apply eqb_true_iff in E. subst c.
      exists (s ++ dq :: post). split; [reflexivity | apply not_elem_of_nil].
    + exists post'. simpl. rewrite IH. split; [reflexivity|].
      apply not_elem_of_cons. split; [|exact Hn].
      intros <-. rewrite Ascii.eqb_refl in E. discriminate.
Qed.

Lemma until_quote_plain (v : std_string) :
  forallb plain v = true -> until_quote v = v.
Proof.
  induction v as [|c v IH]; simpl; intros H; [reflexivity|].
  apply andb_true_iff in H as [Hc Hv].
  rewrite (IH Hv), (plain_eqb_quote c Hc). reflexivity.
Qed.

(** In the fragment of a delta, the key text first occurs at index 22. *)
Lemma fragment_containing_first (rest : std_string) :
  first_occurrence content_key
    (raw "{'choices':[{'delta':{" ++ content_key ++ rest) 22.
Proof. apply find_first. reflexivity. Qed.

(** What the handler makes of the fragment of a delta [D]: the escaped
    text of [D] up to its first quote, as it stands. *)
Lemma fragment_containing_forwarded (w : MLCEngineWrapper) (cb : FnPtr)
    (D : std_string) :
  token_callback_ w = Some cb ->
  processStreamResponse (fragment_containing D) w
  = (w,
     if empty (until_quote (json_escape D)) then []
     else [EvSink cb (c_str (until_quote (json_escape D)))],
     Returns tt).
Proof.
  intros Hcb.
  destruct (until_quote_split (json_escape D) (raw "}}]}"))
    as (post' & Hsplit & Hn).
  change (fragment_containing D)
    with (raw "{'choices':[{'delta':{" ++ content_key
          ++ json_escape D ++ dq :: raw "}}]}").
  rewrite Hsplit.
  apply processStreamResponse_first_field; [done | | done].
  apply fragment_containing_first.
Qed.

(** Reading on after a run of bytes inside the string. *)
Lemma read_string_run (st st' : str_state) (s out rest : std_string) :
  str_run st s = Some (st', out) ->
  read_string st (s ++ rest)
  = match read_string st' rest with
    | Some (v, r) => Some (out ++ v, r)
    | None => None
    end.
Proof.
  revert st out. induction s as [|c s IH]; intros st out H.
  - cbn in H. injection H as <- <-. cbn [app].
    destruct (read_string st rest) as [[v r]|]; reflexivity.
  - cbn [str_run] in H. cbn [app read_string].
    destruct (is_SPlain st && Ascii.eqb c dq); [discriminate|].
    destruct (str_step st c) as [[st1 out1]|]; [|discriminate].
    destruct (str_run st1 s) as [[st2 out2]|] eqn:E; [|discriminate].
    injection H as <- <-. rewrite (IH _ _ E).
    destruct (read_string st2 rest) as [[v r]|]; [|reflexivity].
    rewrite app_assoc. reflexivity.
Qed.

(** The decoder of JSON strings undoes the encoder, byte by byte. *)
Lemma str_run_escape_byte (c : ascii) :
  str_run SPlain (escape_byte c) = Some (SPlain, [c]).
Proof. destruct c as [[] [] [] [] [] [] [] []]; vm_compute; reflexivity. Qed.

Lemma read_string_escape_byte (c : ascii) (rest : std_string) :
  read_string SPlain (escape_byte c ++ rest)
  = match read_string SPlain rest with
    | Some (v, r) => Some (c :: v, r)
    | None => None
    end.
Proof. apply (read_string_run _ _ _ [c]), str_run_escape_byte. Qed.

Lemma read_string_escape (D rest : std_string) :
  read_string SPlain (json_escape D ++ dq :: rest) = Some (D, rest).
Proof.
  unfold json_escape. induction D as [|c D IH]; [reflexivity|].
  cbn [flat_map]. rewrite <- app_assoc, read_string_escape_byte, IH.
  reflexivity.
Qed.

Lemma json_unescape_escape (D : std_string) :
  json_unescape (json_escape D) = Some D.
Proof. unfold json_unescape. rewrite read_string_escape. reflexivity. Qed.

(** C6.  A fragment in which the key text does not occur, or in which its
    first occurrence is followed at once by the closing quote (an empty
    content value), makes the handler invoke nothing. *)
Theorem no_content_no_sink_call (w : MLCEngineWrapper)
    (frag : std_string) :
  (forall i, ~ occurs_at content_key frag i)
  \/ (exists pre post,
        frag = pre ++ content_key ++ dq :: post
        /\ first_occurrence content_key frag (length pre)) ->
  processStreamResponse frag w = (w, [], Returns tt).
Proof.
  intros [Hno | (pre & post & -> & Hfirst)].
  - apply processStreamResponse_no_key, Hno.
  - destruct (token_callback_ w) as [cb|] eqn:Hcb.
    + apply (processStreamResponse_first_field w cb pre [] post);
        [done | done | apply not_elem_of_nil].
    + apply processStreamResponse_no_sink, Hcb.
Qed.

Lemma no_content_no_sink_call_witness :
  (exists pre post,
      raw "{'choices':[{'delta':{'content':''}}]}"
      = pre ++ content_key ++ dq :: post
      /\ first_occurrence content_key
           (raw "{'choices':[{'delta':{'content':''}}]}") (length pre))
  /\ processStreamResponse (raw "{'choices':[{'delta':{'content':''}}]}")
       (listening_wrapper 1%positive)
     = (listening_wrapper 1%positive, [], Returns tt).
Proof.
  assert (H : exists pre post,
      raw "{'choices':[{'delta':{'content':''}}]}"
      = pre ++ content_key ++ dq :: post
      /\ first_occurrence content_key
           (raw "{'choices':[{'delta':{'content':''}}]}") (length pre)).
  { exists (raw "{'choices':[{'delta':{"), (raw "}}]}").
    split; [reflexivity | apply find_first; reflexivity]. }
  split; [exact H|].
  apply (no_content_no_sink_call (listening_wrapper 1%positive)
           (raw "{'choices':[{'delta':{'content':''}}]}")).
  right. exact H.
Defined.

Lemma two_delta_fragment_deltas :
  spec_deltas two_delta_fragment = [lit "a"; lit "b"].
Proof. vm_compute. reflexivity. Qed.

Lemma two_delta_fragment_forwarded :
  events (processStreamResponse two_delta_fragment
            (listening_wrapper 1%positive))
  = [EvSink 1%positive (lit "a")].
Proof. vm_compute. reflexivity. Qed.

(** C1, as stated, fails: of the two content deltas [a] and [b] of one
    fragment the sink receives [a] alone. *)
Lemma every_delta_forwarded_counterexample : ~ every_delta_forwarded.
Proof.
  intros H.
  specialize (H (listening_wrapper 1%positive) 1%positive two_delta_fragment
                eq_refl).
  rewrite two_delta_fragment_forwarded, two_delta_fragment_deltas in H.
  discriminate H.
Qed.

Lemma spec_deltas_single (pre v post : std_string) :
  first_occurrence content_key (pre ++ content_key ++ v ++ dq :: post)
                   (length pre) ->
  forallb plain v = true ->
  (forall i, ~ occurs_at content_key post i) ->
  spec_deltas (pre ++ content_key ++ v ++ dq :: post) = [v].
Proof.
  intros Hfirst Hv Hpost. apply find_first in Hfirst. apply find_npos in Hpost.
  unfold spec_deltas.
  destruct (length (pre ++ content_key ++ v ++ dq :: post)) as [|n] eqn:Hlen.
  { rewrite !length_app in Hlen. cbn in Hlen. lia. }
  cbn [spec_deltas_from]. rewrite Hfirst.
  replace (drop (length pre + 11) (pre ++ content_key ++ v ++ dq :: post))
    with (v ++ dq :: post).
  2: { rewrite app_assoc.
       replace (length pre + 11)%nat with (length (pre ++ content_key))
         by (rewrite length_app; reflexivity).
       rewrite drop_app_length. reflexivity. }
  rewrite read_string_plain by done.
  destruct n as [|n]; [reflexivity|].
  cbn [spec_deltas_from]. rewrite Hpost. reflexivity.
Qed.

(** C1, amended.  With a sink stored, the handler forwards the first
    content field of a fragment and nothing else: it invokes the sink once
    at most; not at all when the key text does not occur; and when the
    first occurrence of the key text is followed by the text [v] and a
    quote, once with [v] if [v] is not empty and not at all if it is,
    whatever follows.  For a fragment whose only content field holds plain
    bytes this is what the specification asks: the sink receives the
    non-empty deltas of the fragment, in order. *)
Theorem first_content_delta_forwarded (w : MLCEngineWrapper) (cb : FnPtr)
    (frag : std_string) :
  token_callback_ w = Some cb ->
  (length (events (processStreamResponse frag w)) <= 1)%nat
  /\ ((forall i, ~ occurs_at content_key frag i) ->
      events (processStreamResponse frag w) = [])
  /\ (forall pre v post,
        frag = pre ++ content_key ++ v ++ dq :: post ->
        first_occurrence content_key frag (length pre) ->
        dq ∉ v ->
        events (processStreamResponse frag w)
        = if empty v then [] else [EvSink cb (c_str v)])
  /\ (forall pre v post,
        frag = pre ++ content_key ++ v ++ dq :: post ->
        first_occurrence content_key frag (length pre) ->
        forallb plain v = true ->
        (forall i, ~ occurs_at content_key post i) ->
        events (processStreamResponse frag w)
        = map (EvSink cb) (List.filter nonempty (spec_deltas frag))).
Proof.
  intros Hcb. repeat split.
  - destruct (processStreamResponse_shape frag w) as (evs & -> & Hle).
    exact Hle.
  - intros Hno. rewrite processStreamResponse_no_key by done. reflexivity.
  - intros pre v post -> Hfirst Hv.
    rewrite (processStreamResponse_first_field w cb) by done. reflexivity.
  - intros pre v post -> Hfirst Hv Hpost.
    rewrite (processStreamResponse_first_field w cb)
      by (try apply plain_not_quote; done).
    rewrite spec_deltas_single by done.
    cbn. unfold nonempty. rewrite c_str_plain by done.
    destruct (empty v); reflexivity.
Qed.

Lemma first_content_delta_forwarded_witness :
  token_callback_ (listening_wrapper 1%positive) = Some 1%positive
  /\ events (processStreamResponse two_delta_fragment
               (listening_wrapper 1%positive))
     = [EvSink 1%positive (lit "a")].
Proof.
  split; [reflexivity|].
  destruct (first_content_delta_forwarded (listening_wrapper 1%positive)
              1%positive two_delta_fragment eq_refl) as (_ & _ & H & _).
  apply (H (raw "{'choices':[{'delta':{") (lit "a")
           (raw "}},{'delta':{'content':'b'}}]}")).
  - reflexivity.
  - apply find_first. reflexivity.
  - vm_compute. intros H1. inversion H1 as [|? ? ? H2]. inversion H2.
Defined.

Lemma quoted_delta_forwarded :
  events (processStreamResponse (fragment_containing quoted_delta)
            (listening_wrapper 1%positive))
  = [EvSink 1%positive (lit "say \")].
Proof. vm_compute. reflexivity. Qed.

(** C3, as stated, fails: for the delta [quoted_delta], the word say and
    the word hi between double quotes, which the engine writes with
    escaped quotes, the sink receives the word say, the space and a
    backslash; that is not the delta, and it does not unescape to the
    delta either. *)
Lemma delta_round_trip_counterexample :
  ~ delta_round_trip /\ ~ delta_round_trip_lenient.
Proof.
  split; intros H.
  - specialize (H (listening_wrapper 1%positive) 1%positive quoted_delta
                  eq_refl).
    rewrite quoted_delta_forwarded in H.
    assert (Hne : quoted_delta <> []) by discriminate.
    specialize (H Hne). discriminate H.
  - specialize (H (listening_wrapper 1%positive) 1%positive quoted_delta
                  eq_refl).
    assert (Hne : quoted_delta <> []) by discriminate.
    destruct (H Hne) as (raw_delta & Hev & Hun).
    rewrite quoted_delta_forwarded in Hev. injection Hev as <-.
    vm_compute in Hun. discriminate Hun.
Qed.

(** C3, amended.  The handler decodes no escape: for the fragment of any
    delta [D] the sink receives the escaped text of [D] as it stands, up
    to its first quote byte, unless that is empty.  So the round trip
    holds for the deltas that need no escaping: a non-empty [D] of plain
    bytes (no quote, no backslash, no control character) is written as
    itself and reaches the sink as [D]. *)
Theorem plain_delta_round_trip (w : MLCEngineWrapper) (cb : FnPtr)
    (D : std_string) :
  token_callback_ w = Some cb ->
  events (processStreamResponse (fragment_containing D) w)
  = (if empty (until_quote (json_escape D)) then []
     else [EvSink cb (c_str (until_quote (json_escape D)))])
  /\ (forallb plain D = true -> D <> [] ->
      json_escape D = D
      /\ events (processStreamResponse (fragment_containing D) w)
         = [EvSink cb D]).
Proof.
  intros Hcb. rewrite (fragment_containing_forwarded w cb) by done.
  split; [reflexivity|]. intros Hplain Hne.
  rewrite json_escape_plain, until_quote_plain, c_str_plain by done.
  split; [reflexivity|]. destruct D; [congruence | reflexivity].
Qed.

Lemma plain_delta_round_trip_witness :
  token_callback_ (listening_wrapper 1%positive) = Some 1%positive
  /\ events (processStreamResponse (fragment_containing (lit "hello"))
               (listening_wrapper 1%positive))
     = [EvSink 1%positive (lit "hello")].
Proof.
  split; [reflexivity|].
  destruct (plain_delta_round_trip (listening_wrapper 1%positive) 1%positive
              (lit "hello") eq_refl) as [_ H].
  apply H; [reflexivity | discriminate].
Defined.

(** ** Request identifiers *)

(** C7 fails on the code: two calls of [generate] whose clock readings,
    250 and 750 microseconds into the same millisecond, differ, submit the
    same request identifier to [chat_completion]. *)
Theorem request_id_collision :
  (1700000000000250 <> 1700000000000750)%Z
  /\ request_id_of 1700000000000250 = lit "req_1700000000000"
  /\ request_id_of 1700000000000750 = lit "req_1700000000000"
  /\ events (generate stub_to_string_float (lit "first") 16 0 None
               1700000000000250 stub_wrapper)
     = [EvCall "chat_completion"
          [AStr (request_json_of stub_to_string_float (lit "first") 16 0);
           AStr (lit "req_1700000000000")]]
  /\ events (generate stub_to_string_float (lit "second") 16 0 None
               1700000000000750 stub_wrapper)
     = [EvCall "chat_completion"
          [AStr (request_json_of stub_to_string_float (lit "second") 16 0);
           AStr (lit "req_1700000000000")]].
Proof. repeat split; try discriminate; vm_compute; reflexivity. Qed.

(** ** The statements at concrete inputs *)

Lemma stub_wrapper_initialized : is_initialized_ stub_wrapper = true.
Proof. reflexivity. Qed.

Lemma stub_handle_valid :
  valid_handle stub_heap (Some 1%positive).
Proof.
  exists stub_wrapper. split; [apply lookup_singleton_eq|].
  intros _. split; eexists; reflexivity.
Qed.

(** Scenario: the registry holds the factory of an accepting engine. *)
Lemma create_engine_accepting_stub :
  outcome (mlc_llm_create_engine
             (stub_registry (stub_engine (Ok true) (Ok []))) (lit "m") ∅)
  = Returns (Some (fresh (dom (∅ : gmap positive MLCEngineWrapper))))
  /\ events (mlc_llm_create_engine
                (stub_registry (stub_engine (Ok true) (Ok []))) (lit "m") ∅)
     = construction_events (lit "m").
Proof. split; reflexivity. Qed.

(** Scenario: the registry lacks the factory key. *)
Lemma create_engine_without_factory :
  outcome (mlc_llm_create_engine empty_registry (lit "m") ∅) = Returns None
  /\ events (mlc_llm_create_engine empty_registry (lit "m") ∅) = [].
Proof. split; reflexivity. Qed.

(** Scenario: the engine rejects the request; [generate] returns -2 after
    asking for the last error, and no host callback is invoked. *)
Lemma generate_rejected_by_stub :
  let w := final (MLCEngineWrapper_ctor
                    (stub_registry
                       (stub_engine (Ok false) (Ok (lit "bad config"))))
                    (lit "m")) in
  let r := generate stub_to_string_float (lit "hi") 16 0 (Some 1%positive)
             0 w in
  outcome r = Returns (-2)
  /\ events r
     = [chat_call stub_to_string_float (lit "hi") 16 0 0;
        EvCall "get_last_error" []].
Proof. split; reflexivity. Qed.

Lemma mlc_llm_generate_return_codes_witness :
  valid_handle stub_heap (Some 1%positive)
  /\ outcome (mlc_llm_generate stub_to_string_float (Some 1%positive)
                (Some (lit "hi")) 16 0 None 0
                stub_heap)
     = Returns 0.
Proof.
  split; [exact stub_handle_valid|].
  destruct (mlc_llm_generate_return_codes Z stub_to_string_float
              (Some 1%positive) (Some (lit "hi")) 16 0 None 0
              stub_heap stub_handle_valid)
    as (_ & _ & H).
  destruct (H 1%positive stub_wrapper (lit "hi")
              (chat_completion (stub_engine (Ok true) (Ok []))) eq_refl
              eq_refl (lookup_singleton_eq _ _) eq_refl eq_refl)
    as (_ & H0 & _).
  apply H0. reflexivity.
Defined.

Lemma generate_forwards_numbers_unchecked_witness :
  stub_heap !! 1%positive = Some stub_wrapper
  /\ is_initialized_ stub_wrapper = true
  /\ outcome (mlc_llm_generate stub_to_string_float (Some 1%positive)
                (Some (lit "hi")) (-5) (-1) None 0
                stub_heap)
     = Returns 0.
Proof.
  split; [apply lookup_singleton_eq|]. split; [reflexivity|].
  destruct (generate_forwards_numbers_unchecked Z stub_to_string_float
              1%positive stub_wrapper (lit "hi") (-5) (-1) None 0
              (chat_completion (stub_engine (Ok true) (Ok [])))
              stub_heap
              (lookup_singleton_eq _ _) eq_refl eq_refl
              (ex_intro _ _ eq_refl)) as [_ H].
  exact H.
Defined.

Lemma stream_without_sink_returns_at_once_witness :
  no_sink_stored stub_to_string_float
    (final (MLCEngineWrapper_ctor empty_registry (lit "m")))
  /\ processStreamResponse (fragment_containing (lit "hello"))
       (final (MLCEngineWrapper_ctor empty_registry (lit "m")))
     = (final (MLCEngineWrapper_ctor empty_registry (lit "m")), [], Returns tt).
Proof.
  split; [apply nss_constructed|].
  apply (stream_without_sink_returns_at_once Z stub_to_string_float).
  apply nss_constructed.
Defined.

(** ** Decimal texts are JSON numbers *)

Lemma digit_char_is_digit (d : N) :
  (d < 10)%N -> is_digit (digit_char d) = true.
Proof.
  intros H.
  assert (Hd : (d = 0 \/ d = 1 \/ d = 2 \/ d = 3 \/ d = 4 \/ d = 5
                \/ d = 6 \/ d = 7 \/ d = 8 \/ d = 9)%N) by lia.
  repeat (destruct Hd as [-> | Hd]; [reflexivity|]). subst d. reflexivity.
Qed.

Lemma digit_char_nonzero (d : N) :
  (d < 10)%N -> d <> 0%N -> Ascii.eqb (digit_char d) "0" = false.
Proof.
  intros H H0.
  assert (Hd : (d = 1 \/ d = 2 \/ d = 3 \/ d = 4 \/ d = 5 \/ d = 6
                \/ d = 7 \/ d = 8 \/ d = 9)%N) by lia.
  repeat (destruct Hd as [-> | Hd]; [reflexivity|]). subst d. reflexivity.
Qed.

(** The digits [digits_of] puts in front of [acc], when the fuel covers
    the number: one digit at least, no leading zero but for zero itself. *)
Lemma digits_of_shape (fuel : nat) (n : N) (acc : std_string) :
  fuel <> O -> (n < 10 ^ N.of_nat fuel)%N ->
  exists d ds,
    digits_of fuel n acc = d :: ds ++ acc
    /\ is_digit d = true /\ forallb is_digit ds = true
    /\ (n <> 0%N -> Ascii.eqb d "0" = false)
    /\ (n = 0%N -> d = "0"%char /\ ds = []).
Proof.
  revert n acc. induction fuel as [|fuel IH]; intros n acc Hfuel Hn.
  - congruence.
  - clear Hfuel. cbn [digits_of].
    assert (Hmod : (n mod 10 < 10)%N) by (apply N.mod_lt; lia).
    destruct (N.eqb_spec (n / 10) 0) as [Hq | Hq].
    + assert (Hsmall : (n < 10)%N).
      { destruct (N.lt_ge_cases n 10) as [|Hge]; [done|].
        exfalso. apply (N.Div0.div_le_mono _ _ 10) in Hge.
        change (10 / 10)%N with 1%N in Hge. lia. }
      rewrite (N.mod_small n 10) by done.
      exists (digit_char n), []. cbn [app forallb].
      split; [reflexivity|]. split; [|split; [reflexivity|split]].
      * apply digit_char_is_digit, Hsmall.
      * intros H0. apply digit_char_nonzero; done.
      * intros ->. split; reflexivity.
    + assert (Hlt : (n / 10 < 10 ^ N.of_nat fuel)%N).
      { apply N.Div0.div_lt_upper_bound.
        rewrite Nat2N.inj_succ, N.pow_succ_r' in Hn. exact Hn. }
      assert (Hfuel : fuel <> O).
      { intros ->. change (10 ^ N.of_nat 0)%N with 1%N in Hlt.
        apply N.lt_1_r in Hlt. congruence. }
      destruct (IH (n / 10)%N (digit_char (n mod 10) :: acc) Hfuel Hlt)
        as (d & ds & -> & Hd & Hds & Hnz & _).
      exists d, (ds ++ [digit_char (n mod 10)]).
      rewrite <- app_assoc. cbn [app].
      split; [reflexivity|]. split; [exact Hd|]. split; [|split].
      * rewrite forallb_app, Hds. cbn.
        rewrite digit_char_is_digit by done. reflexivity.
      * intros _. apply Hnz, Hq.
      * intros ->. exfalso. apply Hq. reflexivity.
Qed.

Lemma to_string_N_fuel (n : N) :
  (n < 10 ^ N.of_nat (S (N.to_nat (N.log2 n))))%N.
Proof.
  rewrite Nat2N.inj_succ, N2Nat.id.
  destruct (N.eq_dec n 0%N) as [-> | Hn]; [reflexivity|].
  apply N.lt_le_trans with (2 ^ N.succ (N.log2 n))%N.
  - apply N.log2_spec. lia.
  - apply N.pow_le_mono_l. lia.
Qed.

Lemma num_run_digits (ds : std_string) :
  forallb is_digit ds = true -> num_run NInt ds = Some NInt.
Proof.
  induction ds as [|c ds IH]; cbn [forallb num_run]; intros H; [reflexivity|].
  apply andb_true_iff in H as [Hc Hds].
  unfold num_step. rewrite Hc. apply IH, Hds.
Qed.

Lemma is_digit_not_minus (c : ascii) :
  is_digit c = true -> Ascii.eqb c "-" = false.
Proof.
  destruct c as [[] [] [] [] [] [] [] []]; vm_compute; congruence.
Qed.

Lemma to_string_N_number (n : N) :
  is_json_number (to_string_N n) = true
  /\ (n <> 0%N -> num_run NMinus (to_string_N n) = Some NInt).
Proof.
  unfold to_string_N.
  destruct (digits_of_shape _ n [] (Nat.neq_succ_0 _) (to_string_N_fuel n))
    as (d & ds & -> & Hd & Hds & Hnz & Hz).
  rewrite app_nil_r. unfold is_json_number. cbn [num_run].
  destruct (N.eq_dec n 0%N) as [Hn | Hn].
  - destruct (Hz Hn) as [-> ->]. split; [reflexivity | tauto].
  - unfold num_step.
    rewrite (is_digit_not_minus d Hd), (Hnz Hn), Hd, num_run_digits by done.
    split; reflexivity.
Qed.

(** [std::to_string] of an integer is a JSON number. *)
Lemma to_string_Z_number (z : Z) : is_json_number (to_string_Z z) = true.
Proof.
  unfold to_string_Z. destruct (Z.ltb_spec z 0) as [Hneg | Hpos].
  - unfold is_json_number. cbn [num_run num_step].
    change (Ascii.eqb "-" "-") with true. cbv iota.
    destruct (to_string_N_number (Z.to_N (- z))) as [_ H].
    rewrite H by lia. reflexivity.
  - apply to_string_N_number.
Qed.

(** ** Decimal texts tell numbers apart *)

Lemma digit_char_code (d : N) :
  (d < 10)%N -> (N_of_ascii (digit_char d) - 48)%N = d.
Proof.
  intros H. unfold digit_char. rewrite N_ascii_embedding by lia. lia.
Qed.

Lemma decimal_value_snoc (ds : std_string) (c : ascii) :
  decimal_value (ds ++ [c])
  = (10 * decimal_value ds + (N_of_ascii c - 48))%N.
Proof. unfold decimal_value. rewrite fold_left_app. reflexivity. Qed.

Lemma digits_of_value (fuel : nat) (n : N) (acc : std_string) :
  fuel <> O -> (n < 10 ^ N.of_nat fuel)%N ->
  exists ds, digits_of fuel n acc = ds ++ acc /\ decimal_value ds = n.
Proof.
  revert n acc. induction fuel as [|fuel IH]; intros n acc Hfuel Hn.
  - congruence.
  - clear Hfuel. cbn [digits_of].
    assert (Hmod : (n mod 10 < 10)%N) by (apply N.mod_lt; lia).
    pose proof (N.div_mod n 10) as Hdm.
    destruct (N.eqb_spec (n / 10) 0) as [Hq | Hq].
    + exists [digit_char (n mod 10)]. split; [reflexivity|].
      change (decimal_value [digit_char (n mod 10)])
        with (10 * 0 + (N_of_ascii (digit_char (n mod 10)) - 48))%N.
      rewrite digit_char_code by done. lia.
    + assert (Hlt : (n / 10 < 10 ^ N.of_nat fuel)%N).
      { apply N.Div0.div_lt_upper_bound.
        rewrite Nat2N.inj_succ, N.pow_succ_r' in Hn. exact Hn. }
      assert (Hfuel : fuel <> O).
      { intros ->. change (10 ^ N.of_nat 0)%N with 1%N in Hlt.
        apply N.lt_1_r in Hlt. congruence. }
      destruct (IH (n / 10)%N (digit_char (n mod 10) :: acc) Hfuel Hlt)
        as (ds & -> & Hds).
      exists (ds ++ [digit_char (n mod 10)]).
      rewrite <- app_assoc. split; [reflexivity|].
      rewrite decimal_value_snoc, Hds, digit_char_code by done. lia.
Qed.

Lemma to_string_N_value (n : N) : decimal_value (to_string_N n) = n.
Proof.
  unfold to_string_N.
  destruct (digits_of_value _ n [] (Nat.neq_succ_0 _) (to_string_N_fuel n))
    as (ds & -> & Hds).
  rewrite app_nil_r. exact Hds.
Qed.

Lemma to_string_N_starts_with_digit (n : N) :
  exists d ds, to_string_N n = d :: ds /\ is_digit d = true.
Proof.
  unfold to_string_N.
  destruct (digits_of_shape _ n [] (Nat.neq_succ_0 _) (to_string_N_fuel n))
    as (d & ds & -> & Hd & _).
  rewrite app_nil_r. eauto.
Qed.

(** [std::to_string] tells integers apart. *)
Lemma to_string_Z_injective (z1 z2 : Z) :
  to_string_Z z1 = to_string_Z z2 -> z1 = z2.
Proof.
  unfold to_string_Z.
  destruct (Z.ltb_spec z1 0) as [H1 | H1], (Z.ltb_spec z2 0) as [H2 | H2];
    intros H.
  - injection H as H. apply (f_equal decimal_value) in H.
    rewrite !to_string_N_value in H. lia.
  - exfalso.
    destruct (to_string_N_starts_with_digit (Z.to_N z2))
      as (d & ds & Hd & Hdigit).
    rewrite Hd in H. injection H as <- _. discriminate Hdigit.
  - exfalso.
    destruct (to_string_N_starts_with_digit (Z.to_N z1))
      as (d & ds & Hd & Hdigit).
    rewrite Hd in H. injection H as -> _. discriminate Hdigit.
  - apply (f_equal decimal_value) in H.
    rewrite !to_string_N_value in H. lia.
Qed.

(** Two request identifiers are the same exactly when the two clock
    readings fall into the same millisecond. *)
Lemma request_id_of_same (now1 now2 : Z) :
  request_id_of now1 = request_id_of now2
  <-> duration_cast_milliseconds now1 = duration_cast_milliseconds now2.
Proof.
  unfold request_id_of. split.
  - intros H. apply app_inv_head in H. apply to_string_Z_injective, H.
  - intros ->. reflexivity.
Qed.

(** ** Reading the request text *)

Lemma lex_by_run (st : lex_state) (s : std_string) :
  lex st s
  = match lex_run st s with
    | Some (st', toks) =>
        match lex_flush st' with
        | Some toks' => Some (toks ++ toks')
        | None => None
        end
    | None => None
    end.
Proof.
  revert st. induction s as [|c s IH]; intros st; cbn [lex lex_run].
  - destruct (lex_flush st); reflexivity.
  - destruct (lex_step st c) as [[st1 toks1]|]; [|reflexivity].
    rewrite IH. destruct (lex_run st1 s) as [[st2 toks2]|]; [|reflexivity].
    destruct (lex_flush st2); [|reflexivity].
    rewrite app_assoc. reflexivity.
Qed.

Lemma lex_run_app (st : lex_state) (a b : std_string) :
  lex_run st (a ++ b)
  = match lex_run st a with
    | Some (st1, toks1) =>
        match lex_run st1 b with
        | Some (st2, toks2) => Some (st2, toks1 ++ toks2)
        | None => None
        end
    | None => None
    end.
Proof.
  revert st. induction a as [|c a IH]; intros st; cbn [app lex_run].
  - destruct (lex_run st b) as [[st2 toks2]|]; reflexivity.
  - destruct (lex_step st c) as [[st1 toks1]|]; [|reflexivity].
    rewrite IH. destruct (lex_run st1 a) as [[st2 toks2]|]; [|reflexivity].
    destruct (lex_run st2 b) as [[st3 toks3]|]; [|reflexivity].
    rewrite app_assoc. reflexivity.
Qed.

(** Plain bytes inside a string are taken as they are. *)
Lemma lex_run_plain (acc P : std_string) :
  forallb plain P = true ->
  lex_run (LStr SPlain acc) P = Some (LStr SPlain (acc ++ P), []).
Proof.
  revert acc. induction P as [|c P IH]; intros acc H.
  - rewrite app_nil_r. reflexivity.
  - cbn [forallb] in H. apply andb_true_iff in H as [Hc HP].
    cbn [lex_run lex_step is_SPlain andb].
    rewrite (plain_eqb_quote c Hc), (plain_step c Hc), (IH _ HP).
    rewrite <- app_assoc. reflexivity.
Qed.

Lemma num_step_char (st st' : num_state) (c : ascii) :
  num_step st c = Some st' -> is_num_char c = true.
Proof.
  destruct st; destruct c as [[] [] [] [] [] [] [] []];
    vm_compute; congruence.
Qed.

Lemma num_run_chars (st st' : num_state) (s : std_string) :
  num_run st s = Some st' -> forallb is_num_char s = true.
Proof.
  revert st. induction s as [|c s IH]; intros st H; [reflexivity|].
  cbn [num_run] in H. destruct (num_step st c) as [st1|] eqn:E; [|discriminate].
  cbn [forallb]. rewrite (num_step_char _ _ _ E), (IH _ H). reflexivity.
Qed.

Lemma lex_default_number_start (c : ascii) (st : num_state) :
  num_step NStart c = Some st -> lex_default c = Some (LNum [c], []).
Proof.
  destruct c as [[] [] [] [] [] [] [] []]; vm_compute; congruence.
Qed.

Lemma lex_run_number_chars (acc s : std_string) :
  forallb is_num_char s = true ->
  lex_run (LNum acc) s = Some (LNum (acc ++ s), []).
Proof.
  revert acc. induction s as [|c s IH]; intros acc H.
  - rewrite app_nil_r. reflexivity.
  - cbn [forallb] in H. apply andb_true_iff in H as [Hc Hs].
    cbn [lex_run lex_step]. rewrite Hc, (IH _ Hs), <- app_assoc.
    reflexivity.
Qed.

(** A JSON number is lexed as one pending number. *)
Lemma lex_run_number (s : std_string) :
  is_json_number s = true -> lex_run LDefault s = Some (LNum s, []).
Proof.
  unfold is_json_number. destruct s as [|c s]; [discriminate|].
  cbn [num_run]. destruct (num_step NStart c) as [st|] eqn:E; [|discriminate].
  destruct (num_run st s) as [st'|] eqn:Hrun; [|discriminate]. intros _.
  cbn [lex_run lex_step]. rewrite (lex_default_number_start c st E).
  rewrite (lex_run_number_chars [c] s (num_run_chars _ _ _ Hrun)).
  reflexivity.
Qed.

(** The comma after a number closes it. *)
Lemma lex_step_number_comma (s : std_string) :
  is_json_number s = true ->
  lex_step (LNum s) ","%char = Some (LDefault, [TNum s; TComma]).
Proof.
  intros H. unfold lex_step, lex_delimiter, lex_flush. rewrite H.
  reflexivity.
Qed.

Lemma lex_run_before_prompt :
  lex_run LDefault request_before_prompt
  = Some (LStr SPlain [],
          [TLBrace; TStr (lit "messages"); TColon; TLBrack; TLBrace;
           TStr (lit "role"); TColon; TStr (lit "user"); TComma;
           TStr (lit "content"); TColon]).
Proof. vm_compute. reflexivity. Qed.

Lemma lex_run_after_prompt :
  lex_run LDefault (tl request_after_prompt)
  = Some (LDefault,
          [TRBrace; TRBrack; TComma; TStr (lit "model"); TColon;
           TStr (lit "TinyLlama-1.1B-MLC"); TComma;
           TStr (lit "max_tokens"); TColon]).
Proof. vm_compute. reflexivity. Qed.

Lemma lex_run_middle :
  lex_run LDefault (tl request_middle)
  = Some (LDefault, [TStr (lit "temperature"); TColon]).
Proof. vm_compute. reflexivity. Qed.

Lemma lex_run_tail :
  lex_run LDefault (tl request_tail)
  = Some (LDefault, [TStr (lit "stream"); TColon; TTrue; TRBrace]).
Proof. vm_compute. reflexivity. Qed.

(** The tokens of a request with a plain prompt and two JSON numbers. *)
Lemma lex_request (P n1 n2 : std_string) :
  forallb plain P = true ->
  is_json_number n1 = true ->
  is_json_number n2 = true ->
  lex LDefault
    (request_before_prompt ++ P ++ request_after_prompt ++ n1
     ++ request_middle ++ n2 ++ request_tail)
  = Some [TLBrace; TStr (lit "messages"); TColon; TLBrack; TLBrace;
          TStr (lit "role"); TColon; TStr (lit "user"); TComma;
          TStr (lit "content"); TColon; TStr P; TRBrace; TRBrack; TComma;
          TStr (lit "model"); TColon; TStr (lit "TinyLlama-1.1B-MLC");
          TComma; TStr (lit "max_tokens"); TColon; TNum n1; TComma;
          TStr (lit "temperature"); TColon; TNum n2; TComma;
          TStr (lit "stream"); TColon; TTrue; TRBrace].
Proof.
  intros HP H1 H2. rewrite lex_by_run.
  rewrite lex_run_app, lex_run_before_prompt.
  rewrite lex_run_app, (lex_run_plain [] P HP). cbn [app].
  change request_after_prompt with (dq :: tl request_after_prompt).
  cbn [app lex_run lex_step is_SPlain andb].
  change (Ascii.eqb dq dq) with true. cbv iota.
  rewrite lex_run_app, lex_run_after_prompt.
  rewrite lex_run_app, (lex_run_number n1 H1).
  change request_middle with (","%char :: tl request_middle).
  cbn [app lex_run]. rewrite (lex_step_number_comma n1 H1).
  rewrite lex_run_app, lex_run_middle.
  rewrite lex_run_app, (lex_run_number n2 H2).
  change request_tail with (","%char :: tl request_tail).
  cbn [app lex_run]. rewrite (lex_step_number_comma n2 H2).
  rewrite lex_run_tail. reflexivity.
Qed.

Lemma parse_request (P n1 n2 : std_string) :
  forallb plain P = true ->
  is_json_number n1 = true ->
  is_json_number n2 = true ->
  json_parse
    (request_before_prompt ++ P ++ request_after_prompt ++ n1
     ++ request_middle ++ n2 ++ request_tail)
  = Some (decoded_request P n1 n2).
Proof.
  intros HP H1 H2. unfold json_parse. rewrite lex_request by done.
  reflexivity.
Qed.

Lemma decoded_request_content (P n1 n2 : std_string) :
  messages_0_content (decoded_request P n1 n2) = Some P.
Proof. reflexivity. Qed.

Lemma plain_no_control (P : std_string) :
  forallb plain P = true -> forallb no_control P = true.
Proof.
  induction P as [|c P IH]; cbn [forallb]; intros H; [reflexivity|].
  apply andb_true_iff in H as [Hc HP]. rewrite (IH HP), andb_true_r.
  unfold plain in Hc. apply andb_true_iff in Hc as [_ Hc].
  apply negb_true_iff in Hc. unfold no_control.
  apply N.leb_le. apply N.ltb_ge in Hc. exact Hc.
Qed.

Section Request.

Variable float : Type.
Variable to_string_float : float -> std_string.

Lemma request_json_of_pieces (P : std_string) (max_tokens : Z)
    (temperature : float) :
  request_json_of to_string_float P max_tokens temperature
  = request_before_prompt ++ P ++ request_after_prompt
    ++ to_string_Z max_tokens ++ request_middle
    ++ to_string_float temperature ++ request_tail.
Proof.
  reflexivity.
Qed.

(** C2, amended.  [generate] puts the prompt into the request text as it
    is, without escaping.  So for every prompt of plain bytes (no double
    quote, no backslash, no control character), every [max_tokens] and
    every temperature that [std::to_string] writes as a JSON number, the
    request text is a well-formed JSON document; it decodes to the chat
    request, and its [messages[0].content] is the prompt. *)
Theorem plain_prompt_round_trip (P : std_string) (max_tokens : Z)
    (temperature : float) :
  forallb plain P = true ->
  is_json_number (to_string_float temperature) = true ->
  json_parse (request_json_of to_string_float P max_tokens temperature)
  = Some (decoded_request P (to_string_Z max_tokens)
            (to_string_float temperature))
  /\ messages_0_content
       (decoded_request P (to_string_Z max_tokens)
          (to_string_float temperature))
     = Some P.
Proof.
  intros HP Ht. split; [|apply decoded_request_content].
  rewrite request_json_of_pieces.
  apply parse_request; [exact HP | apply to_string_Z_number | exact Ht].
Qed.

End Request.

(** A double quote in the prompt ends the string in the request text. *)
Lemma quote_prompt_not_json :
  json_parse (request_json_of stub_to_string_float (raw "a'b") 16 0) = None.
Proof. vm_compute. reflexivity. Qed.

(** A temperature that is not written as a JSON number spoils the
    request, whatever the prompt. *)
Lemma unwritable_temperature_not_json :
  json_parse (request_json_of (fun _ : Z => lit "nan") (lit "hello") 16 0)
  = None.
Proof. vm_compute. reflexivity. Qed.

(** A backslash in the prompt is read as the start of an escape: the
    prompt of the bytes [a], backslash, [n], [b] comes back as [a], line
    feed, [b]. *)
Lemma backslash_prompt_decodes_otherwise :
  option_bind _ _ messages_0_content
    (json_parse (request_json_of stub_to_string_float (lit "a\nb") 16 0))
  = Some ["a"%char; nl; "b"%char].
Proof. vm_compute. reflexivity. Qed.

(** C2, as stated, fails: the prompt made of [a], a double quote and [b]
    holds no control character, and its request text is not a JSON
    document. *)
Lemma prompt_round_trip_counterexample :
  ~ prompt_round_trip stub_to_string_float.
Proof.
  intros H.
  destruct (H (raw "a'b") 16 0 eq_refl eq_refl) as (j & Hj & _).
  rewrite quote_prompt_not_json in Hj. discriminate Hj.
Qed.

Lemma plain_prompt_round_trip_witness :
  forallb plain (lit "hello world") = true
  /\ is_json_number (stub_to_string_float 0) = true
  /\ option_bind _ _ messages_0_content
       (json_parse
          (request_json_of stub_to_string_float (lit "hello world") 16 0))
     = Some (lit "hello world").
Proof.
  split; [reflexivity|]. split; [reflexivity|].
  destruct (plain_prompt_round_trip Z stub_to_string_float
              (lit "hello world") 16 0 eq_refl eq_refl) as [-> H].
  exact H.
Defined.

(** * Further properties of the bridge *)

(** ** Destruction *)

Lemma MLCEngineWrapper_dtor_runs (w : MLCEngineWrapper) :
  (is_initialized_ w = true -> is_Some (json_ffi_engine_ w)) ->
  ~ exit_loop_missing w ->
  exists w',
    MLCEngineWrapper_dtor w = (w', teardown_events w, Returns tt).
Proof.
  intros Hengine Hhas.
  unfold MLCEngineWrapper_dtor, teardown_events, try_catch, bind, getFunction,
    invoke, get_this, ret.
  destruct (is_initialized_ w) eqn:Hi; cbn; [|eauto].
  destruct (Hengine eq_refl) as [m Hm]. rewrite Hm.
  destruct (GetFunction m "exit_background_loop") as [[|]|e] eqn:Hexit; cbn;
    [| |eauto].
  - destruct (exit_background_loop m) as [[]|e]; cbn; eauto.
  - exfalso. apply Hhas. split; [exact Hi|]. eauto.
Qed.

Lemma MLCEngineWrapper_dtor_undefined (w : MLCEngineWrapper) :
  exit_loop_missing w ->
  exists w', MLCEngineWrapper_dtor w = (w', [], Undefined).
Proof.
  intros (Hi & m & Hm & Hexit).
  unfold MLCEngineWrapper_dtor, try_catch, bind, getFunction, invoke,
    get_this, ret.
  rewrite Hi. cbn. rewrite Hm, Hexit. cbn. eauto.
Qed.

Lemma delete_live (p : positive) (w : MLCEngineWrapper)
    (heap : gmap positive MLCEngineWrapper) :
  heap !! p = Some w ->
  (is_initialized_ w = true -> is_Some (json_ffi_engine_ w)) ->
  ~ exit_loop_missing w ->
  mlc_llm_destroy_engine (Some p) heap
  = (delete p heap, teardown_events w, Returns tt).
Proof.
  intros Hp Hengine Hhas. unfold mlc_llm_destroy_engine, delete_. rewrite Hp.
  destruct (MLCEngineWrapper_dtor_runs w Hengine Hhas) as [w' ->].
  reflexivity.
Qed.

Lemma delete_undefined (p : positive) (w : MLCEngineWrapper)
    (heap : gmap positive MLCEngineWrapper) :
  heap !! p = Some w ->
  exit_loop_missing w ->
  outcome (mlc_llm_destroy_engine (Some p) heap) = Undefined.
Proof.
  intros Hp Hmiss. unfold mlc_llm_destroy_engine, delete_. rewrite Hp.
  destruct (MLCEngineWrapper_dtor_undefined w Hmiss) as [w' ->].
  reflexivity.
Qed.

(** Scenario: an engine without [exit_background_loop].  Creation gives
    a handle, and its destruction calls through the null [PackedFunc] the
    lookup returned. *)
Lemma destroy_engine_without_exit_loop :
  let registry := stub_registry (engine_without "exit_background_loop") in
  let r := mlc_llm_create_engine registry (lit "m") ∅ in
  let p := fresh (dom (∅ : gmap positive MLCEngineWrapper)) in
  outcome r = Returns (Some p)
  /\ outcome (mlc_llm_destroy_engine (Some p) (final r)) = Undefined.
Proof.
  cbv zeta. split; [reflexivity|].
  apply delete_undefined
    with (w := initialized_wrapper (engine_without "exit_background_loop")
                 (lit "m")).
  - apply lookup_insert_eq.
  - split; [reflexivity|]. eexists. split; reflexivity.
Qed.

(** X1.  Destroying a live wrapper does not return exactly when the
    wrapper is initialized and its engine has no [exit_background_loop]:
    the destructor calls what the lookup gave it without a test.  In
    every other case the call returns, the wrapper is freed and every
    other wrapper stays; an initialized wrapper asks its engine to exit
    the background loop, once, and what the engine throws on the way is
    swallowed; an uninitialized wrapper asks the engine nothing. *)
Theorem mlc_llm_destroy_engine_live (p : positive) (w : MLCEngineWrapper)
    (heap : gmap positive MLCEngineWrapper) :
  heap !! p = Some w ->
  (is_initialized_ w = true -> is_Some (json_ffi_engine_ w)) ->
  let r := mlc_llm_destroy_engine (Some p) heap in
  (outcome r = Undefined <-> exit_loop_missing w)
  /\ (~ exit_loop_missing w ->
      outcome r = Returns tt
      /\ final r = delete p heap
      /\ final r !! p = None
      /\ (forall q, q <> p -> final r !! q = heap !! q)
      /\ events r = teardown_events w
      /\ (is_initialized_ w = false -> events r = [])).
Proof.
  intros Hp Hengine r. subst r. split.
  - split.
    + intros Hu.
      assert (Hdec : exit_loop_missing w \/ ~ exit_loop_missing w).
      { unfold exit_loop_missing.
        destruct (is_initialized_ w) eqn:Hi;
          [|right; intros [H _]; discriminate].
        destruct (Hengine eq_refl) as [m Hm].
        destruct (GetFunction m "exit_background_loop") as [[|]|e] eqn:He.
        - right. intros (_ & m' & Hm' & He'). congruence.
        - left. eauto.
        - right. intros (_ & m' & Hm' & He'). congruence. }
      destruct Hdec as [Hmiss | Hhas]; [exact Hmiss|].
      rewrite (delete_live p w heap Hp Hengine Hhas) in Hu.
      discriminate Hu.
    + apply delete_undefined, Hp.
  - intros Hhas. rewrite (delete_live p w heap Hp Hengine Hhas). cbn.
    split; [reflexivity|]. split; [reflexivity|].
    split; [apply lookup_delete_eq|].
    split; [intros q Hq; apply lookup_delete_ne; congruence|].
    split; [reflexivity|].
    intros Hi. unfold teardown_events. rewrite Hi. reflexivity.
Qed.

Lemma mlc_llm_destroy_engine_live_witness :
  stub_heap !! 1%positive = Some stub_wrapper
  /\ outcome (mlc_llm_destroy_engine (Some 1%positive) stub_heap)
     = Returns tt
  /\ events (mlc_llm_destroy_engine (Some 1%positive) stub_heap)
     = [EvCall "exit_background_loop" []].
Proof.
  split; [apply lookup_singleton_eq|].
  destruct (mlc_llm_destroy_engine_live 1%positive stub_wrapper stub_heap
              (lookup_singleton_eq _ _)
              (fun _ => ex_intro _ _ eq_refl))
    as (_ & H).
  destruct H as (H1 & _ & _ & _ & H2 & _).
  - intros (_ & m & Hm & Hexit). injection Hm as <-. discriminate Hexit.
  - split; [exact H1 | exact H2].
Defined.

(** X2.  Creation and destruction undo each other on the free store,
    provided the engine has an [exit_background_loop]: destroying the
    handle [mlc_llm_create_engine] returned then returns, gives back the
    free store as it was before the creation, and asks the engine at most
    for the exit of the background loop.  On an engine without that
    method, and only then, the destruction does not return. *)
Theorem create_then_destroy (registry : Registry) (model_path : std_string)
    (heap : gmap positive MLCEngineWrapper) (p : positive) (m : Module) :
  registry "mlc.json_ffi.CreateJSONFFIEngine"%string = Some (Ok m) ->
  outcome (mlc_llm_create_engine registry model_path heap)
  = Returns (Some p) ->
  let created := final (mlc_llm_create_engine registry model_path heap) in
  let r := mlc_llm_destroy_engine (Some p) created in
  (outcome r = Undefined
   <-> GetFunction m "exit_background_loop" = Ok false)
  /\ (GetFunction m "exit_background_loop" <> Ok false ->
      outcome r = Returns tt
      /\ final r = heap
      /\ (events r = [] \/ events r = [EvCall "exit_background_loop" []])).
Proof.
  intros Hreg Hcreate created r.
  destruct (construct_cases registry model_path)
    as [(m' & Hreg' & Hs & _) | [(Hf & Hn & _) | (_ & Hn & _)]].
  - assert (m' = m) by congruence. subst m'. subst created r.
    rewrite (mlc_llm_create_engine_success _ _ _ m Hreg Hs) in *.
    cbn in Hcreate. injection Hcreate as <-. cbn [final fst].
    assert (Hlive : (<[fresh (dom heap) := initialized_wrapper m model_path]>
                       heap) !! fresh (dom heap)
                    = Some (initialized_wrapper m model_path))
      by apply lookup_insert_eq.
    assert (Hmiss : exit_loop_missing (initialized_wrapper m model_path)
                    <-> GetFunction m "exit_background_loop" = Ok false).
    { split.
      - intros (_ & m' & Hm' & He). cbn in Hm'. congruence.
      - intros He. split; [reflexivity|]. exists m. split; [reflexivity|].
        exact He. }
    assert (Hhas : GetFunction m "exit_background_loop" <> Ok false ->
              mlc_llm_destroy_engine (Some (fresh (dom heap)))
                (<[fresh (dom heap) := initialized_wrapper m model_path]>
                   heap)
              = (delete (fresh (dom heap))
                   (<[fresh (dom heap) := initialized_wrapper m model_path]>
                      heap),
                 teardown_events (initialized_wrapper m model_path),
                 Returns tt)).
    { intros He. apply delete_live;
        [exact Hlive | intros _; eexists; reflexivity | tauto]. }
    split.
    + split.
      * intros Hu.
        destruct (GetFunction m "exit_background_loop") as [[|]|e] eqn:He;
          [|reflexivity|];
          rewrite Hhas in Hu by discriminate; discriminate Hu.
      * intros He. eapply delete_undefined; [exact Hlive|].
        apply Hmiss, He.
    + intros He. rewrite (Hhas He).
      cbn [outcome final events fst snd].
      split; [reflexivity|]. split.
      * rewrite delete_insert_eq, delete_id by apply fresh_address_unused.
        reflexivity.
      * unfold teardown_events. cbn.
        destruct (GetFunction m "exit_background_loop") as [[|]|];
          tauto.
  - exfalso.
    destruct (mlc_llm_create_engine_failure _ model_path heap Hf Hn)
      as [evs Hr].
    rewrite Hr in Hcreate. discriminate Hcreate.
  - exfalso.
    destruct (mlc_llm_create_engine_undefined _ model_path heap Hn)
      as [evs Hr].
    rewrite Hr in Hcreate. discriminate Hcreate.
Qed.

Lemma create_then_destroy_witness :
  outcome (mlc_llm_create_engine
             (stub_registry (stub_engine (Ok true) (Ok []))) (lit "m") ∅)
  = Returns (Some (fresh (dom (∅ : gmap positive MLCEngineWrapper))))
  /\ final (mlc_llm_destroy_engine
              (Some (fresh (dom (∅ : gmap positive MLCEngineWrapper))))
              (final (mlc_llm_create_engine
                        (stub_registry (stub_engine (Ok true) (Ok [])))
                        (lit "m") ∅)))
     = ∅.
Proof.
  split; [reflexivity|].
  destruct (create_then_destroy
              (stub_registry (stub_engine (Ok true) (Ok []))) (lit "m") ∅
              (fresh (dom (∅ : gmap positive MLCEngineWrapper)))
              (stub_engine (Ok true) (Ok [])) eq_refl eq_refl)
    as (_ & H).
  destruct H as (_ & H & _); [discriminate|exact H].
Defined.

(** ** Construction, call by call *)

(** X3.  Whatever the registry and the engine do, the engine calls of
    [mlc_llm_create_engine] are, in this order, the first ones of: the
    factory, [init_background_engine] on device 8 (Metal) number 0 with the
    stream callback, [reload] with the configuration of the model path.
    So [reload] is only ever called after [init_background_engine]
    returned, nothing is called when the factory is missing, and no
    failed creation asks the engine to exit its background loop.  A
    non-null handle is returned only after all three calls. *)
Theorem mlc_llm_create_engine_calls (registry : Registry)
    (model_path : std_string) (heap : gmap positive MLCEngineWrapper) :
  let r := mlc_llm_create_engine registry model_path heap in
  events r `prefix_of` construction_events model_path
  /\ (registry "mlc.json_ffi.CreateJSONFFIEngine"%string = None ->
      events r = [])
  /\ (forall p, outcome r = Returns (Some p) ->
      events r = construction_events model_path)
  /\ (forall m e,
        registry "mlc.json_ffi.CreateJSONFFIEngine"%string = Some (Ok m) ->
        lookups_return m ->
        GetFunction m "init_background_engine" = Ok true ->
        init_background_engine m 8 0 = Raise e ->
        outcome r = Returns None
        /\ events r = take 2 (construction_events model_path)).
Proof.
  intros r. subst r. unfold mlc_llm_create_engine.
  destruct (registry "mlc.json_ffi.CreateJSONFFIEngine"%string)
    as [[m|e]|] eqn:Hreg.
  2,3: run_member; rewrite Hreg; cbn;
    unfold new_, delete_, isInitialized; cbn; rewrite lookup_insert_eq; cbn;
    (split; [eexists; reflexivity|]);
    (split; [try discriminate; reflexivity|]);
    (split; [discriminate|]); intros; discriminate.
  run_member. rewrite Hreg. cbn.
  repeat (split_reply; cbn;
    [ | unfold new_, delete_, isInitialized; cbn; rewrite lookup_insert_eq;
        cbn;
        (split; [exists (skipn 1 (construction_events model_path));
                 reflexivity|]);
        (split; [discriminate|]);
        (split; [discriminate|]);
        intros m' e' Hm' Hall; injection Hm' as <-;
        match goal with
        | H : GetFunction m ?name = Raise _ |- _ =>
            destruct (lookups_return_at m name Hall) as [found Hok];
              [simpl; tauto | congruence]
        end ]).
  match goal with
  | H : GetFunction m "init_background_engine" = Ok ?found |- _ =>
      destruct found; cbn
  end.
  2: { split; [exists (skipn 1 (construction_events model_path));
               reflexivity|].
       split; [discriminate|]. split; [discriminate|].
       intros m' e' Hm' _ Hi'. injection Hm' as <-. congruence. }
  destruct (init_background_engine m 8 0) as [[]|e] eqn:Hinit; cbn.
  2: { unfold new_, delete_, isInitialized; cbn. rewrite lookup_insert_eq.
       cbn. split; [exists (skipn 2 (construction_events model_path));
                    reflexivity|].
       split; [discriminate|]. split; [discriminate|].
       intros; split; reflexivity. }
  match goal with
  | H : GetFunction m "reload" = Ok ?found |- _ => destruct found; cbn
  end.
  2: { split; [exists (skipn 2 (construction_events model_path));
               reflexivity|].
       split; [discriminate|]. split; [discriminate|].
       intros m' e' Hm' _ _ Hi'. injection Hm' as <-. congruence. }
  destruct (reload m (engine_config model_path)) as [[]|e] eqn:Hreload; cbn.
  2: { unfold new_, delete_, isInitialized; cbn. rewrite lookup_insert_eq.
       cbn. split; [exists []; reflexivity|].
       split; [discriminate|]. split; [discriminate|].
       intros m' e' Hm' _ _ Hi'. injection Hm' as <-. congruence. }
  split; [exists []; reflexivity|].
  split; [discriminate|]. split; [reflexivity|].
  intros m' e' Hm' _ _ Hi'. injection Hm' as <-. congruence.
Qed.

(** ** What calls change *)

Lemma set_token_callback_same (w : MLCEngineWrapper) :
  set_token_callback_ (token_callback_ w) w = w.
Proof. destruct w; reflexivity. Qed.

Lemma generate_final {float : Type}
    (to_string_float : float -> std_string) (w : MLCEngineWrapper)
    prompt max_tokens temperature callback now :
  final (generate to_string_float prompt max_tokens temperature callback
           now w)
  = if is_initialized_ w then set_token_callback_ callback w else w.
Proof.
  unfold generate, try_catch, bind, invoke, modify, get_this, ret.
  destruct (is_initialized_ w); cbn; [|reflexivity].
  destruct (chat_completion_ w) as [cc|]; cbn; [|reflexivity].
  destruct (cc _ _) as [[|]|e]; cbn; try reflexivity.
  destruct (get_last_error_ w) as [[|]|]; reflexivity.
Qed.

(** X4.  [generate] changes nothing of the wrapper but the stored sink:
    the model path, the initialized flag, the engine and the bound methods
    stay as they were.  An uninitialized wrapper is left as it is, the
    callback not being stored; an initialized wrapper has the callback
    stored whatever [chat_completion] does, also when the call fails. *)
Theorem generate_changes_sink_only {float : Type}
    (to_string_float : float -> std_string) (w : MLCEngineWrapper)
    (prompt : std_string) (max_tokens : Z) (temperature : float)
    (callback : option FnPtr) (now : Z) :
  let w' := final (generate to_string_float prompt max_tokens temperature
                     callback now w) in
  w' = set_token_callback_ (token_callback_ w') w
  /\ is_initialized_ w' = is_initialized_ w
  /\ chat_completion_ w' = chat_completion_ w
  /\ get_last_error_ w' = get_last_error_ w
  /\ json_ffi_engine_ w' = json_ffi_engine_ w
  /\ (is_initialized_ w = false -> w' = w)
  /\ (is_initialized_ w = true -> token_callback_ w' = callback).
Proof.
  intros w'. subst w'. rewrite generate_final.
  destruct (is_initialized_ w) eqn:Hi; cbn;
    rewrite ?set_token_callback_same; repeat split;
    try reflexivity; try discriminate; exact Hi.
Qed.

(** X5.  [mlc_llm_generate] keeps the free store in shape: the same
    addresses are live afterwards, the wrappers the call was not made on
    are untouched, the one it was made on differs at most in its stored
    sink, and a handle that was null or live is so afterwards, so that
    calls can follow one another. *)
Theorem mlc_llm_generate_frame {float : Type}
    (to_string_float : float -> std_string) (engine : option positive)
    (prompt : option std_string) (max_tokens : Z) (temperature : float)
    (callback : option FnPtr) (now : Z)
    (heap : gmap positive MLCEngineWrapper) :
  valid_handle heap engine ->
  let heap' := final (mlc_llm_generate to_string_float engine prompt
                        max_tokens temperature callback now heap) in
  valid_handle heap' engine
  /\ dom heap' = dom heap
  /\ forall q w, heap !! q = Some w ->
       exists w',
         heap' !! q = Some w'
         /\ w' = set_token_callback_ (token_callback_ w') w
         /\ (engine <> Some q -> w' = w).
Proof.
  intros Hvalid heap'. subst heap'.
  assert (Hsame : forall q w, heap !! q = Some w ->
            exists w', heap !! q = Some w'
              /\ w' = set_token_callback_ (token_callback_ w') w
              /\ (engine <> Some q -> w' = w)).
  { intros q w Hq. exists w. rewrite set_token_callback_same. tauto. }
  unfold mlc_llm_generate.
  destruct engine as [p|]; [|cbn; tauto].
  destruct prompt as [text|]; [|cbn; tauto].
  destruct Hvalid as (w & Hw & Hb). rewrite Hw.
  pose proof (generate_final to_string_float w text max_tokens temperature
                callback now) as Hfinal.
  destruct (generate to_string_float text max_tokens temperature callback
              now w) as [[w1 evs] out].
  cbn [final fst] in Hfinal.
  assert (Hheap : final (match out with
                         | Throws _ => (<[p := w1]> heap, evs, Returns (-2))
                         | _ => (<[p := w1]> heap, evs, out)
                         end) = <[p := w1]> heap)
    by (destruct out; reflexivity).
  rewrite Hheap.
  assert (Hw1 : w1 = set_token_callback_ (token_callback_ w1) w
                /\ bound w1).
  { subst w1. destruct (is_initialized_ w) eqn:Hi.
    - split; [reflexivity|]. intros _. cbn. apply Hb, Hi.
    - rewrite set_token_callback_same. split; [reflexivity | exact Hb]. }
  destruct Hw1 as [Hw1 Hb1].
  split; [exists w1; split; [apply lookup_insert_eq | exact Hb1]|].
  split.
  - apply dom_insert_lookup_L. eauto.
  - intros q w0 Hq. destruct (decide (p = q)) as [<- | Hne].
    + exists w1. rewrite lookup_insert_eq.
      assert (w0 = w) by congruence. subst w0.
      split; [reflexivity|]. split; [exact Hw1 | congruence].
    + exists w0. rewrite lookup_insert_ne by done.
      rewrite set_token_callback_same. tauto.
Qed.

Lemma mlc_llm_generate_frame_witness :
  valid_handle stub_heap (Some 1%positive)
  /\ valid_handle
       (final (mlc_llm_generate stub_to_string_float (Some 1%positive)
                 (Some (lit "hi")) 16 0 (Some 7%positive) 0 stub_heap))
       (Some 1%positive).
Proof.
  split; [exact stub_handle_valid|].
  destruct (mlc_llm_generate_frame stub_to_string_float (Some 1%positive)
              (Some (lit "hi")) 16 0 (Some 7%positive) 0 stub_heap
              stub_handle_valid) as [H _].
  exact H.
Defined.

(** X6.  [mlc_llm_create_engine] never disturbs the wrappers that are
    live: each stays at its address as it was, and a handle that was null
    or live is so afterwards; the address behind a returned handle was
    not in use. *)
Theorem mlc_llm_create_engine_frame (registry : Registry)
    (model_path : std_string) (heap : gmap positive MLCEngineWrapper) :
  let r := mlc_llm_create_engine registry model_path heap in
  (forall q w, heap !! q = Some w -> final r !! q = Some w)
  /\ (forall engine, valid_handle heap engine ->
        valid_handle (final r) engine)
  /\ (forall p, outcome r = Returns (Some p) ->
        heap !! p = None /\ dom (final r) = {[p]} ∪ dom heap)
  /\ (outcome r = Returns None -> final r = heap).
Proof.
  intros r.
  assert (Hkeep : (forall q w, heap !! q = Some w -> final r !! q = Some w)
                  -> forall engine, valid_handle heap engine ->
                     valid_handle (final r) engine).
  { intros H [q|] Hv; [|exact I]. destruct Hv as (w & Hw & Hb).
    exists w. split; [apply H, Hw | exact Hb]. }
  destruct (construct_cases registry model_path)
    as [(m & Hreg & Hs & _) | [(Hf & Hn & _) | (_ & Hn & _)]].
  - subst r. rewrite (mlc_llm_create_engine_success _ _ _ m Hreg Hs) in *.
    cbn [final outcome fst snd] in *.
    assert (H1 : forall q w, heap !! q = Some w ->
              (<[fresh (dom heap) := initialized_wrapper m model_path]> heap)
                !! q = Some w).
    { intros q w Hq. rewrite lookup_insert_ne; [exact Hq|].
      intros <-. rewrite fresh_address_unused in Hq. discriminate. }
    split; [exact H1|]. split; [apply Hkeep, H1|]. split.
    + intros p [= <-]. split; [apply fresh_address_unused|].
      apply dom_insert_L.
    + discriminate.
  - destruct (mlc_llm_create_engine_failure _ model_path heap Hf Hn)
      as [evs Hr].
    subst r. rewrite Hr in *. cbn [final outcome fst snd] in *.
    split; [tauto|]. split; [tauto|]. split; [discriminate | reflexivity].
  - destruct (mlc_llm_create_engine_undefined _ model_path heap Hn)
      as [evs Hr].
    subst r. rewrite Hr in *. cbn [final outcome fst snd] in *.
    split; [tauto|]. split; [tauto|]. split; [discriminate | reflexivity].
Qed.

(** ** The stream handler, exactly *)

Lemma c_str_no_nul (s : std_string) : zero ∉ c_str s.
Proof.
  induction s as [|c s IH]; cbn [c_str]; [apply not_elem_of_nil|].
  destruct (Ascii.eqb c zero) eqn:E; [apply not_elem_of_nil|].
  apply not_elem_of_cons. split; [|exact IH].
  intros <-. rewrite Ascii.eqb_refl in E. discriminate.
Qed.

Lemma c_str_subset (s : std_string) (x : ascii) : x ∈ c_str s -> x ∈ s.
Proof.
  induction s as [|c s IH]; cbn [c_str]; [done|].
  destruct (Ascii.eqb c zero); [intros H; inversion H|].
  intros H. apply elem_of_cons in H as [-> | H].
  - apply elem_of_cons. tauto.
  - apply elem_of_cons. right. apply IH, H.
Qed.

Lemma split_at_first_quote (s : std_string) :
  dq ∈ s -> exists v post, s = v ++ dq :: post /\ (dq ∉ v).
Proof. apply list_elem_of_split_l. Qed.

(** X7.  With a sink stored, the handler calls the sink with a token
    exactly when the fragment reads: anything, the first occurrence of
    the key text, a non-empty text [v] without a quote, a quote, anything;
    the token is then [v] as a C string.  Whatever the fragment, a token
    that reaches the sink holds neither a quote nor a NUL byte. *)
Theorem sink_called_exactly_when (w : MLCEngineWrapper) (cb : FnPtr)
    (frag tok : std_string) :
  token_callback_ w = Some cb ->
  (events (processStreamResponse frag w) = [EvSink cb tok]
   <-> exists pre v post,
         frag = pre ++ content_key ++ v ++ dq :: post
         /\ first_occurrence content_key frag (length pre)
         /\ (dq ∉ v) /\ v <> [] /\ tok = c_str v)
  /\ (events (processStreamResponse frag w) = [EvSink cb tok] ->
      (dq ∉ tok) /\ (zero ∉ tok)).
Proof.
  intros Hcb.
  assert (Hfwd : events (processStreamResponse frag w) = [EvSink cb tok] ->
            exists pre v post,
              frag = pre ++ content_key ++ v ++ dq :: post
              /\ first_occurrence content_key frag (length pre)
              /\ (dq ∉ v) /\ v <> [] /\ tok = c_str v).
  { intros Hev.
    destruct (find frag content_key 0) as [i|] eqn:Hfind.
    2: { pose proof (proj1 (find_npos _ _) Hfind) as Hno.
         rewrite (processStreamResponse_no_key frag w Hno) in Hev.
         discriminate Hev. }
    apply find_first in Hfind.
    destruct Hfind as [(pre & post0 & Hfrag & Hlen) Hmin].
    subst i. assert (Hfirst : first_occurrence content_key frag (length pre)).
    { split; [exists pre, post0; done | exact Hmin]. }
    destruct (decide (dq ∈ post0)) as [Hin | Hnot].
    - destruct (split_at_first_quote post0 Hin) as (v & post & -> & Hv).
      exists pre, v, post. split; [exact Hfrag|]. split; [exact Hfirst|].
      split; [exact Hv|].
      subst frag.
      rewrite (processStreamResponse_first_field w cb pre v post Hcb Hfirst
                 Hv) in Hev.
      cbn [events fst snd] in Hev. destruct v as [|c v].
      + discriminate Hev.
      + cbn [empty] in Hev. injection Hev as <-. split; [discriminate|].
        reflexivity.
    - subst frag.
      rewrite (processStreamResponse_unterminated w pre post0 Hfirst Hnot)
        in Hev.
      discriminate Hev. }
  split; [split; [exact Hfwd|]|].
  - intros (pre & v & post & -> & Hfirst & Hv & Hne & ->).
    rewrite (processStreamResponse_first_field w cb pre v post Hcb Hfirst Hv).
    destruct v; [congruence | reflexivity].
  - intros Hev. destruct (Hfwd Hev) as (pre & v & post & _ & _ & Hv & _ & ->).
    split; [|apply c_str_no_nul].
    intros Hin. apply Hv, c_str_subset, Hin.
Qed.

Lemma sink_called_exactly_when_witness :
  token_callback_ (listening_wrapper 1%positive) = Some 1%positive
  /\ (dq ∉ lit "a") /\ (zero ∉ lit "a").
Proof.
  split; [reflexivity|].
  destruct (sink_called_exactly_when (listening_wrapper 1%positive)
              1%positive two_delta_fragment (lit "a") eq_refl) as [_ H].
  apply H. vm_compute. reflexivity.
Defined.

Lemma processStream_events (fragments : list std_string)
    (w : MLCEngineWrapper) :
  processStream fragments w
  = (w,
     flat_map (fun fragment => events (processStreamResponse fragment w))
       fragments,
     Returns tt).
Proof.
  induction fragments as [|frag fragments IH]; [reflexivity|].
  cbn [processStream flat_map]. unfold bind at 1.
  destruct (processStreamResponse_shape frag w) as (evs & -> & _).
  rewrite IH. reflexivity.
Qed.

(** X8.  The handler keeps nothing from one fragment to the next: for any
    sequence of fragments the wrapper is left as it was, nothing is
    thrown, and the events are those of each fragment taken alone, in the
    order of the fragments, so that no token overtakes another and at
    most as many tokens arrive as there are fragments. *)
Theorem processStream_fragment_by_fragment (fragments : list std_string)
    (w : MLCEngineWrapper) :
  processStream fragments w
  = (w,
     flat_map (fun fragment => events (processStreamResponse fragment w))
       fragments,
     Returns tt)
  /\ (length (events (processStream fragments w)) <= length fragments)%nat.
Proof.
  rewrite processStream_events. split; [reflexivity|].
  cbn [events fst snd].
  induction fragments as [|frag fragments IH]; [reflexivity|].
  cbn [flat_map length]. rewrite length_app.
  destruct (processStreamResponse_shape frag w) as (evs & -> & Hle).
  cbn [events fst snd]. lia.
Qed.

(** X9.  A stream of content deltas of plain bytes, one fragment each,
    reaches the stored sink whole and in order: the sink is called once
    for each non-empty delta, with that delta, in the order of emission,
    and not at all for the empty ones. *)
Theorem plain_deltas_arrive_in_order (w : MLCEngineWrapper) (cb : FnPtr)
    (deltas : list std_string) :
  token_callback_ w = Some cb ->
  Forall (fun D => forallb plain D = true) deltas ->
  processStream (map fragment_containing deltas) w
  = (w, map (EvSink cb) (List.filter nonempty deltas), Returns tt).
Proof.
  intros Hcb Hplain. rewrite processStream_events.
  f_equal. f_equal.
  induction Hplain as [|D deltas HD _ IH]; [reflexivity|].
  cbn [map flat_map List.filter]. rewrite IH.
  rewrite (fragment_containing_forwarded w cb D Hcb).
  rewrite json_escape_plain, until_quote_plain, c_str_plain by done.
  cbn [events fst snd]. unfold nonempty. destruct (empty D); reflexivity.
Qed.

Lemma plain_deltas_arrive_in_order_witness :
  token_callback_ (listening_wrapper 1%positive) = Some 1%positive
  /\ Forall (fun D => forallb plain D = true) [lit "a"; lit "bc"; []]
  /\ events (processStream
               (map fragment_containing [lit "a"; lit "bc"; []])
               (listening_wrapper 1%positive))
     = [EvSink 1%positive (lit "a"); EvSink 1%positive (lit "bc")].
Proof.
  assert (H : Forall (fun D => forallb plain D = true)
                [lit "a"; lit "bc"; []])
    by (repeat constructor).
  split; [reflexivity|]. split; [exact H|].
  rewrite (plain_deltas_arrive_in_order (listening_wrapper 1%positive)
             1%positive [lit "a"; lit "bc"; []] eq_refl H).
  reflexivity.
Defined.

(** ** From [generate] to the sink *)

(** X10.  The tokens go to the callback of the latest [generate]: once an
    initialized wrapper has been through [generate] with a callback,
    whatever was stored before and whether [chat_completion] accepted,
    refused or threw, the fragment of a non-empty delta of plain bytes
    makes the handler call that callback, once, with the delta. *)
Theorem latest_callback_receives {float : Type}
    (to_string_float : float -> std_string) (w : MLCEngineWrapper)
    (prompt : std_string) (max_tokens : Z) (temperature : float)
    (cb : FnPtr) (now : Z) (D : std_string) :
  is_initialized_ w = true ->
  forallb plain D = true ->
  D <> [] ->
  let w' := final (generate to_string_float prompt max_tokens temperature
                     (Some cb) now w) in
  processStreamResponse (fragment_containing D) w'
  = (w', [EvSink cb D], Returns tt).
Proof.
  intros Hi HD Hne w'.
  assert (Hcb : token_callback_ w' = Some cb).
  { subst w'. rewrite generate_final, Hi. reflexivity. }
  rewrite (fragment_containing_forwarded w' cb D Hcb).
  rewrite json_escape_plain, until_quote_plain, c_str_plain by done.
  destruct D; [congruence | reflexivity].
Qed.

Lemma latest_callback_receives_witness :
  is_initialized_ (listening_wrapper 1%positive) = true
  /\ forallb plain (lit "hello") = true
  /\ events (processStreamResponse (fragment_containing (lit "hello"))
               (final (generate stub_to_string_float (lit "hi") 16 0
                         (Some 2%positive) 0
                         (listening_wrapper 1%positive))))
     = [EvSink 2%positive (lit "hello")].
Proof.
  split; [reflexivity|]. split; [reflexivity|].
  assert (Hne : lit "hello" <> []) by discriminate.
  pose proof (latest_callback_receives stub_to_string_float
                (listening_wrapper 1%positive) (lit "hi") 16 0 2%positive 0
                (lit "hello") eq_refl eq_refl Hne) as H.
  exact (f_equal events H).
Defined.

(** X11.  The stream callback registered with the engine, run on a live
    wrapper, never throws and leaves the free store as it was; what it
    does is what [processStreamResponse] does on that wrapper. *)
Theorem stream_callback_live (p : positive) (w : MLCEngineWrapper)
    (response_json : std_string) (heap : gmap positive MLCEngineWrapper) :
  heap !! p = Some w ->
  stream_callback p response_json heap
  = (heap, events (processStreamResponse response_json w), Returns tt).
Proof.
  intros Hp. unfold stream_callback. rewrite Hp.
  destruct (processStreamResponse_shape response_json w) as (evs & -> & _).
  rewrite insert_id by exact Hp. reflexivity.
Qed.

Lemma stream_callback_live_witness :
  stub_heap !! 1%positive = Some stub_wrapper
  /\ stream_callback 1%positive (fragment_containing (lit "hello")) stub_heap
     = (stub_heap, [], Returns tt).
Proof.
  split; [apply lookup_singleton_eq|].
  rewrite (stream_callback_live 1%positive stub_wrapper _ stub_heap
             (lookup_singleton_eq _ _)).
  reflexivity.
Defined.

(** ** Request identifiers, read back *)

(** X12.  For a clock reading at or after the epoch the request
    identifier is the text [req_] followed by decimal digits that read
    back as the reading in milliseconds, and two readings a millisecond or
    more apart give two different identifiers. *)
Theorem request_id_reads_back (now : Z) :
  0 <= now ->
  (exists digits,
      request_id_of now = lit "req_" ++ digits
      /\ forallb is_digit digits = true
      /\ Z.of_N (decimal_value digits) = now / 1000)
  /\ forall later, now + 1000 <= later ->
       request_id_of later <> request_id_of now.
Proof.
  intros Hnow. split.
  - exists (to_string_Z (duration_cast_milliseconds now)).
    split; [reflexivity|].
    assert (Hms : duration_cast_milliseconds now = now / 1000).
    { unfold duration_cast_milliseconds. apply Z.quot_div_nonneg; lia. }
    rewrite Hms.
    assert (Hpos : 0 <= now / 1000) by (apply Z.div_pos; lia).
    unfold to_string_Z. destruct (Z.ltb_spec (now / 1000) 0); [lia|].
    split.
    + unfold to_string_N.
      destruct (digits_of_shape _ (Z.to_N (now / 1000)) []
                  (Nat.neq_succ_0 _) (to_string_N_fuel _))
        as (d & ds & -> & Hd & Hds & _).
      rewrite app_nil_r. cbn [forallb]. rewrite Hd, Hds. reflexivity.
    + rewrite to_string_N_value. lia.
  - intros later Hlater Heq. apply request_id_of_same in Heq.
    unfold duration_cast_milliseconds in Heq.
    rewrite !Z.quot_div_nonneg in Heq by lia.
    assert (now / 1000 < later / 1000); [|lia].
    apply Z.lt_le_trans with ((now + 1000) / 1000).
    + replace (now + 1000) with (now + 1 * 1000) by lia.
      rewrite Z.div_add by lia. lia.
    + apply Z.div_le_mono; lia.
Qed.

Lemma request_id_reads_back_witness :
  0 <= 1700000000000250
  /\ request_id_of 1700000000001250 <> request_id_of 1700000000000250.
Proof.
  split; [lia|].
  destruct (request_id_reads_back 1700000000000250 ltac:(lia)) as [_ H].
  apply H. lia.
Defined.

(** ** A refused call does nothing *)

(** X13.  When [mlc_llm_generate] returns -1 on a null or live handle it
    has done nothing at all: the engine was not called, no callback was
    stored and the free store is as before.  In particular no bound method
    of an uninitialized wrapper is ever invoked. *)
Theorem refused_generate_does_nothing {float : Type}
    (to_string_float : float -> std_string) (engine : option positive)
    (prompt : option std_string) (max_tokens : Z) (temperature : float)
    (callback : option FnPtr) (now : Z)
    (heap : gmap positive MLCEngineWrapper) :
  valid_handle heap engine ->
  let r := mlc_llm_generate to_string_float engine prompt max_tokens
             temperature callback now heap in
  outcome r = Returns (-1) ->
  events r = [] /\ final r = heap.
Proof.
  intros Hvalid r Hr. subst r.
  destruct engine as [p|]; [|split; reflexivity].
  destruct prompt as [text|]; [|split; reflexivity].
  destruct Hvalid as (w & Hw & Hb).
  destruct (is_initialized_ w) eqn:Hi.
  - exfalso. destruct (Hb Hi) as [[cc Hcc] [gle Hgle]].
    rewrite (mlc_llm_generate_initialized _ to_string_float p w _ _ _ _ _
               cc gle _ heap Hw Hi Hcc Hgle eq_refl) in Hr.
    cbn in Hr. destruct (cc _ _) as [[|]|]; discriminate.
  - rewrite (mlc_llm_generate_uninitialized _ to_string_float p w _ _ _ _ _
               heap Hw Hi).
    cbn. split; [reflexivity | apply insert_id, Hw].
Qed.

Lemma refused_generate_does_nothing_witness :
  valid_handle stub_heap None
  /\ events (mlc_llm_generate stub_to_string_float None (Some (lit "hi")) 16
               0 (Some 1%positive) 0 stub_heap) = []
  /\ final (mlc_llm_generate stub_to_string_float None (Some (lit "hi")) 16
              0 (Some 1%positive) 0 stub_heap) = stub_heap.
Proof.
  split; [exact I|].
  exact (refused_generate_does_nothing stub_to_string_float None
           (Some (lit "hi")) 16 0 (Some 1%positive) 0 stub_heap I eq_refl).
Defined.

(** ** The engine configuration *)

Lemma lex_app (st : lex_state) (a b : std_string) :
  lex st (a ++ b)
  = match lex_run st a with
    | Some (st1, toks1) =>
        match lex st1 b with
        | Some toks2 => Some (toks1 ++ toks2)
        | None => None
        end
    | None => None
    end.
Proof.
  revert st. induction a as [|c a IH]; intros st; cbn [app lex lex_run].
  - destruct (lex st b); reflexivity.
  - destruct (lex_step st c) as [[st1 toks1]|]; [|reflexivity].
    rewrite IH. destruct (lex_run st1 a) as [[st2 toks2]|]; [|reflexivity].
    destruct (lex st2 b); [|reflexivity].
    rewrite app_assoc. reflexivity.
Qed.

Lemma lex_run_config_before :
  lex_run LDefault config_before_path
  = Some (LStr SPlain [], [TLBrace; TStr (lit "model"); TColon]).
Proof. vm_compute. reflexivity. Qed.

Lemma lex_config_after :
  lex LDefault (tl config_after_path)
  = Some [TComma; TStr (lit "model_lib"); TColon;
          TStr (lit "TinyLlama-1.1B-MLC"); TComma;
          TStr (lit "device"); TColon; TStr (lit "metal:0"); TComma;
          TStr (lit "max_num_sequence"); TColon; TNum (lit "1"); TComma;
          TStr (lit "max_total_sequence_length"); TColon;
          TNum (lit "2048"); TComma;
          TStr (lit "prefill_chunk_size"); TColon; TNum (lit "2048");
          TComma; TStr (lit "max_history_size"); TColon; TNum (lit "1");
          TRBrace].
Proof. vm_compute. reflexivity. Qed.

Lemma parse_engine_config (model_path : std_string) :
  forallb plain model_path = true ->
  json_parse (engine_config model_path) = Some (decoded_config model_path).
Proof.
  intros Hplain. unfold json_parse.
  change (engine_config model_path)
    with (config_before_path ++ model_path
          ++ dq :: tl config_after_path).
  rewrite lex_app, lex_run_config_before.
  rewrite lex_app, (lex_run_plain [] model_path Hplain).
  cbn [app lex lex_step is_SPlain andb].
  change (Ascii.eqb dq dq) with true. cbv iota.
  rewrite lex_config_after. reflexivity.
Qed.

(** X14.  The configuration handed to [reload] embeds the model path as
    it is.  For a model path of plain bytes (no double quote, no
    backslash, no control character) it is a well-formed JSON document
    whose [model] is the path, with the fixed model library, the device
    [metal:0], one sequence, and 2048, 2048 and 1 for the three sizes;
    every successful creation ends with [reload] on exactly that text. *)
Theorem engine_config_decodes (registry : Registry)
    (model_path : std_string) (heap : gmap positive MLCEngineWrapper)
    (p : positive) :
  forallb plain model_path = true ->
  outcome (mlc_llm_create_engine registry model_path heap)
  = Returns (Some p) ->
  exists config,
    last (events (mlc_llm_create_engine registry model_path heap))
    = Some (EvCall "reload" [AStr config])
    /\ json_parse config = Some (decoded_config model_path)
    /\ obj_get (lit "model") (decoded_config model_path)
       = Some (JStr model_path).
Proof.
  intros Hplain Hcreate. exists (engine_config model_path).
  destruct (construct_cases registry model_path)
    as [(m & Hreg & Hs & _) | [(Hf & Hn & _) | (_ & Hn & _)]].
  - rewrite (mlc_llm_create_engine_success _ _ _ m Hreg Hs).
    split; [reflexivity|]. split; [apply parse_engine_config, Hplain|].
    reflexivity.
  - exfalso.
    destruct (mlc_llm_create_engine_failure _ model_path heap Hf Hn)
      as [evs Hr].
    rewrite Hr in Hcreate. discriminate Hcreate.
  - exfalso.
    destruct (mlc_llm_create_engine_undefined _ model_path heap Hn)
      as [evs Hr].
    rewrite Hr in Hcreate. discriminate Hcreate.
Qed.

Lemma engine_config_decodes_witness :
  forallb plain (lit "models/tiny") = true
  /\ json_parse (engine_config (lit "models/tiny"))
     = Some (decoded_config (lit "models/tiny")).
Proof.
  split; [reflexivity|].
  destruct (engine_config_decodes
              (stub_registry (stub_engine (Ok true) (Ok [])))
              (lit "models/tiny") ∅
              (fresh (dom (∅ : gmap positive MLCEngineWrapper)))
              eq_refl eq_refl) as (config & Hlast & Hparse & _).
  injection Hlast as <-. exact Hparse.
Defined.

(** ** When the prompt comes back *)

Lemma utf8_encode_length (cp : N) : (length (utf8_encode cp) <= 4)%nat.
Proof.
  unfold utf8_encode.
  destruct (cp <? 128)%N; [cbn; lia|].
  destruct (cp <? 2048)%N; [cbn; lia|].
  destruct (cp <? 65536)%N; cbn; lia.
Qed.

(** A step of the string reader gives at most one byte more than the
    debt of the escape allows. *)
Lemma str_step_length (st st' : str_state) (c : ascii) (out : std_string) :
  str_step st c = Some (st', out) ->
  (length out + escape_debt st' <= 1 + escape_debt st)%nat.
Proof.
  destruct st as [| |todo cp high|h|h]; cbn [str_step].
  - destruct (Ascii.eqb c bs); [intros [= <- <-]; cbn; lia|].
    destruct (Ascii.eqb c dq); [discriminate|].
    destruct (code c <? 32)%N; [discriminate|].
    intros [= <- <-]. cbn. lia.
  - repeat (match goal with
            | |- context [if ?b then _ else _] => destruct b
            end; [intros [= <- <-]; cbn; lia|]).
    discriminate.
  - destruct (hex_val c) as [d|]; [|discriminate].
    destruct todo as [|[|todo]]; [discriminate| |].
    + unfold finish_hex.
      repeat (match goal with
              | |- context [if ?b then _ else _] => destruct b
              | |- context [match ?o with Some _ => _ | None => _ end] =>
                  destruct o
              end);
        try discriminate;
        intros [= <- <-]; cbn [escape_debt length];
        try (pose proof (utf8_encode_length (cp * 16 + d)));
        try (pose proof (utf8_encode_length
                           (65536 + (n - 55296) * 1024
                            + (cp * 16 + d - 56320))));
        lia.
    + intros [= <- <-]. cbn. lia.
  - destruct (Ascii.eqb c bs); [intros [= <- <-]; cbn; lia|discriminate].
  - destruct (Ascii.eqb c "u"); [intros [= <- <-]; cbn; lia|discriminate].
Qed.

Lemma str_run_length (st st' : str_state) (a out : std_string) :
  str_run st a = Some (st', out) ->
  (length out + escape_debt st' <= length a + escape_debt st)%nat.
Proof.
  revert st out. induction a as [|c a IH]; intros st out H.
  - cbn in H. injection H as <- <-. cbn. lia.
  - cbn [str_run] in H.
    destruct (is_SPlain st && Ascii.eqb c dq); [discriminate|].
    destruct (str_step st c) as [[st1 out1]|] eqn:E; [|discriminate].
    destruct (str_run st1 a) as [[st2 out2]|] eqn:E2; [|discriminate].
    injection H as <- <-.
    apply str_step_length in E. apply IH in E2.
    rewrite length_app. cbn [length]. lia.
Qed.

(** A run that gives back the very bytes it read has read plain bytes
    only. *)
Lemma str_run_identity (P : std_string) :
  str_run SPlain P = Some (SPlain, P) -> forallb plain P = true.
Proof.
  induction P as [|c P IH]; intros H; [reflexivity|].
  cbn [str_run is_SPlain andb] in H.
  destruct (Ascii.eqb c dq) eqn:Edq; [discriminate|].
  cbn [str_step] in H.
  destruct (Ascii.eqb c bs) eqn:Ebs.
  - exfalso.
    destruct (str_run SEscape P) as [[st2 out2]|] eqn:E2; [|discriminate].
    injection H as -> ->. apply str_run_length in E2. cbn in E2. lia.
  - rewrite Edq in H.
    destruct (code c <? 32)%N eqn:Ectl; [discriminate|].
    destruct (str_run SPlain P) as [[st2 out2]|] eqn:E2; [|discriminate].
    injection H as -> ->.
    cbn [forallb]. rewrite (IH eq_refl), andb_true_r.
    unfold plain. rewrite Edq, Ebs, Ectl. reflexivity.
Qed.

(** What [read_string] reads is a run ending in the plain state, then the
    closing quote. *)
Lemma read_string_run_inv (st : str_state) (s v r : std_string) :
  read_string st s = Some (v, r) ->
  exists a, s = a ++ dq :: r /\ str_run st a = Some (SPlain, v).
Proof.
  revert st v. induction s as [|c s IH]; intros st v H; [discriminate|].
  cbn [read_string] in H.
  destruct (is_SPlain st && Ascii.eqb c dq) eqn:E.
  - injection H as <- <-. apply andb_true_iff in E as [Hst Hc].
    apply eqb_true_iff in Hc. subst c.
    destruct st; try discriminate. exists []. split; reflexivity.
  - destruct (str_step st c) as [[st1 out1]|] eqn:E1; [|discriminate].
    destruct (read_string st1 s) as [[v1 r1]|] eqn:E2; [|discriminate].
    injection H as <- <-.
    destruct (IH _ _ E2) as (a & -> & Ha).
    exists (c :: a). split; [reflexivity|].
    cbn [str_run]. rewrite E, E1, Ha. reflexivity.
Qed.

Lemma str_run_app (st : str_state) (a b : std_string) :
  str_run st (a ++ b)
  = match str_run st a with
    | Some (st1, out1) =>
        match str_run st1 b with
        | Some (st2, out2) => Some (st2, out1 ++ out2)
        | None => None
        end
    | None => None
    end.
Proof.
  revert st. induction a as [|c a IH]; intros st; cbn [app str_run].
  - destruct (str_run st b) as [[st2 out2]|]; reflexivity.
  - destruct (is_SPlain st && Ascii.eqb c dq); [reflexivity|].
    destruct (str_step st c) as [[st1 out1]|]; [|reflexivity].
    rewrite IH. destruct (str_run st1 a) as [[st2 out2]|]; [|reflexivity].
    destruct (str_run st2 b) as [[st3 out3]|]; [|reflexivity].
    rewrite app_assoc. reflexivity.
Qed.

(** No string goes on over a quote followed by a line feed. *)
Lemma str_run_quote_newline (st : str_state) (x y : std_string) :
  str_run st (x ++ dq :: nl :: y) = None.
Proof.
  rewrite str_run_app.
  destruct (str_run st x) as [[st1 out1]|]; [|reflexivity].
  assert (H : str_run st1 (dq :: nl :: y) = None);
    [|rewrite H; reflexivity].
  destruct st1 as [| |todo cp high|h|h]; reflexivity.
Qed.

(** The parser, one token group at a time. *)
Lemma parse_value_object (fuel : nat) (k : std_string) (r : list token) :
  parse_value (S fuel) (TLBrace :: TStr k :: TColon :: r)
  = match parse_value fuel r with
    | Some (v, r1) =>
        match parse_members fuel r1 with
        | Some (ms, r2) => Some (JObj ((k, v) :: ms), r2)
        | None => None
        end
    | None => None
    end.
Proof. reflexivity. Qed.

Lemma parse_value_array_of_object (fuel : nat) (r : list token) :
  parse_value (S fuel) (TLBrack :: TLBrace :: r)
  = match parse_value fuel (TLBrace :: r) with
    | Some (v, r1) =>
        match parse_elements fuel r1 with
        | Some (vs, r2) => Some (JArr (v :: vs), r2)
        | None => None
        end
    | None => None
    end.
Proof. reflexivity. Qed.

Lemma parse_value_string (fuel : nat) (s : std_string) (r : list token) :
  parse_value (S fuel) (TStr s :: r) = Some (JStr s, r).
Proof. reflexivity. Qed.

Lemma parse_members_next (fuel : nat) (k : std_string) (r : list token) :
  parse_members (S fuel) (TComma :: TStr k :: TColon :: r)
  = match parse_value fuel r with
    | Some (v, r1) =>
        match parse_members fuel r1 with
        | Some (ms, r2) => Some ((k, v) :: ms, r2)
        | None => None
        end
    | None => None
    end.
Proof. reflexivity. Qed.

Lemma parse_request_shape (fuel : nat) (v : std_string) (rest r : list token)
    (j : json) :
  parse_value fuel (tokens_before_prompt ++ TStr v :: rest) = Some (j, r) ->
  messages_0_content j = Some v.
Proof.
  unfold tokens_before_prompt. cbn [app]. intros H.
  destruct fuel as [|f1]; [discriminate H|].
  rewrite parse_value_object in H.
  destruct (parse_value f1 _) as [[arr r1]|] eqn:Harr; [|discriminate H].
  destruct (parse_members f1 r1) as [[ms r2]|]; [|discriminate H].
  injection H as <- <-.
  destruct f1 as [|f2]; [discriminate Harr|].
  rewrite parse_value_array_of_object in Harr.
  destruct (parse_value f2 _) as [[o r3]|] eqn:Ho; [|discriminate Harr].
  destruct (parse_elements f2 r3) as [[vs r4]|]; [|discriminate Harr].
  injection Harr as <- <-.
  destruct f2 as [|f3]; [discriminate Ho|].
  rewrite parse_value_object in Ho.
  destruct f3 as [|f4]; [discriminate Ho|].
  rewrite parse_value_string, parse_members_next in Ho.
  destruct f4 as [|f5]; [discriminate Ho|].
  rewrite parse_value_string in Ho.
  destruct (parse_members (S f5) rest) as [[ms' r5]|]; [|discriminate Ho].
  injection Ho as <- <-. reflexivity.
Qed.

(** Lexing inside a string is reading the string, then lexing on. *)
Lemma lex_string (st : str_state) (acc s : std_string) :
  lex (LStr st acc) s
  = match read_string st s with
    | Some (v, s') =>
        match lex LDefault s' with
        | Some toks => Some (TStr (acc ++ v) :: toks)
        | None => None
        end
    | None => None
    end.
Proof.
  revert st acc. induction s as [|c s IH]; intros st acc; [reflexivity|].
  cbn [lex lex_step read_string].
  destruct (is_SPlain st && Ascii.eqb c dq).
  - rewrite app_nil_r. destruct (lex LDefault s); reflexivity.
  - destruct (str_step st c) as [[st1 out1]|]; [|reflexivity].
    rewrite IH. destruct (read_string st1 s) as [[v s']|]; [|reflexivity].
    destruct (lex LDefault s'); [|reflexivity].
    rewrite app_assoc. reflexivity.
Qed.

(** A request that decodes with the prompt as its content has a prompt
    of plain bytes, whatever follows the line after the prompt. *)
Lemma content_back_plain (P tail : std_string) (j : json) :
  json_parse (request_before_prompt ++ P ++ dq :: nl :: tail) = Some j ->
  messages_0_content j = Some P ->
  forallb plain P = true.
Proof.
  unfold json_parse. intros Hparse Hcontent.
  rewrite lex_app, lex_run_before_prompt, lex_string in Hparse.
  destruct (read_string SPlain (P ++ dq :: nl :: tail)) as [[v r]|] eqn:Hread;
    [|discriminate Hparse].
  destruct (lex LDefault r) as [toks|]; [|discriminate Hparse].
  cbn [app] in Hparse.
  match type of Hparse with
  | context [parse_value ?f ?l] =>
      destruct (parse_value f l) as [[j' r']|] eqn:Hj;
        [|discriminate Hparse]
  end.
  destruct r'; [|discriminate Hparse]. injection Hparse as ->.
  pose proof (parse_request_shape _ v toks [] j Hj) as Hv.
  rewrite Hcontent in Hv. injection Hv as <-.
  destruct (read_string_run_inv _ _ _ _ Hread) as (a & Ha & Hrun).
  pose proof (str_run_length _ _ _ _ Hrun) as Hlen. cbn in Hlen.
  apply app_eq_inv in Ha as [(k & -> & Hk) | (k & -> & Hk)].
  - destruct k as [|c k].
    + rewrite app_nil_r in *. apply str_run_identity, Hrun.
    + exfalso. rewrite length_app in Hlen. cbn in Hlen. lia.
  - destruct k as [|c k].
    + rewrite app_nil_r in *. apply str_run_identity, Hrun.
    + exfalso. cbn [app] in Hk. injection Hk as <- Hk.
      destruct k as [|c k]; cbn [app] in Hk.
      * injection Hk as Hq _. discriminate Hq.
      * injection Hk as <- Hk.
        rewrite str_run_quote_newline in Hrun. discriminate Hrun.
Qed.

(** X15.  The prompt comes back from the request exactly when it needs no
    escaping: for a temperature written as a JSON number, the request
    text of [generate] is a JSON document whose [messages[0].content] is
    the prompt if and only if the prompt is made of plain bytes.  A
    prompt with a double quote, a backslash or a control character is
    never read back as it was. *)
Theorem prompt_back_iff_plain {float : Type}
    (to_string_float : float -> std_string) (P : std_string)
    (max_tokens : Z) (temperature : float) :
  is_json_number (to_string_float temperature) = true ->
  ((exists j,
       json_parse (request_json_of to_string_float P max_tokens temperature)
       = Some j
       /\ messages_0_content j = Some P)
   <-> forallb plain P = true).
Proof.
  intros Ht. split.
  - intros (j & Hparse & Hcontent).
    apply (content_back_plain P
             (tl (tl request_after_prompt) ++ to_string_Z max_tokens
              ++ request_middle ++ to_string_float temperature
              ++ request_tail) j);
      [exact Hparse | exact Hcontent].
  - intros HP.
    exists (decoded_request P (to_string_Z max_tokens)
              (to_string_float temperature)).
    split; [|apply decoded_request_content].
    rewrite request_json_of_pieces.
    apply parse_request; [exact HP | apply to_string_Z_number | exact Ht].
Qed.

Lemma prompt_back_iff_plain_witness :
  is_json_number (stub_to_string_float 0) = true
  /\ forallb plain (lit "hello world") = true.
Proof.
  split; [reflexivity|].
  apply (prompt_back_iff_plain stub_to_string_float (lit "hello world") 16 0
           eq_refl).
  exists (decoded_request (lit "hello world") (to_string_Z 16)
            (stub_to_string_float 0)).
  split; reflexivity.
Defined.

(** ** When a delta comes through *)

Lemma escape_byte_no_nul (c : ascii) : zero ∉ escape_byte c.
Proof.
  assert (H : forallb (fun x => negb (Ascii.eqb x zero)) (escape_byte c)
              = true)
    by (destruct c as [[] [] [] [] [] [] [] []]; vm_compute; reflexivity).
  intros Hin. rewrite forallb_forall in H.
  apply list_elem_of_In, H in Hin. discriminate Hin.
Qed.

Lemma json_escape_no_nul (D : std_string) : zero ∉ json_escape D.
Proof.
  unfold json_escape. induction D as [|c D IH]; cbn [flat_map].
  - apply not_elem_of_nil.
  - rewrite elem_of_app. intros [H | H]; [|exact (IH H)].
    exact (escape_byte_no_nul c H).
Qed.

Lemma until_quote_subset (s : std_string) (x : ascii) :
  x ∈ until_quote s -> x ∈ s.
Proof.
  induction s as [|c s IH]; cbn [until_quote]; [done|].
  destruct (Ascii.eqb c dq); [intros H; inversion H|].
  intros H. apply elem_of_cons in H as [-> | H]; apply elem_of_cons; auto.
Qed.

Lemma c_str_without_nul (s : std_string) : zero ∉ s -> c_str s = s.
Proof.
  induction s as [|c s IH]; intros H; [reflexivity|].
  apply not_elem_of_cons in H as [Hc Hs]. cbn [c_str].
  destruct (Ascii.eqb c zero) eqn:E.
  - apply eqb_true_iff in E. congruence.
  - rewrite (IH Hs). reflexivity.
Qed.

(** The escape of a byte that is not plain starts with a backslash. *)
Lemma escape_byte_not_plain (c : ascii) :
  plain c = false -> exists rest, escape_byte c = bs :: rest.
Proof.
  destruct c as [[] [] [] [] [] [] [] []]; vm_compute; intros H;
    try discriminate H; eexists; reflexivity.
Qed.

Lemma until_quote_backslash (s : std_string) :
  until_quote (bs :: s) = bs :: until_quote s.
Proof. reflexivity. Qed.

(** The escaped text of [D], after any number of backslashes and cut at
    its first quote, is [D] only if there is no backslash in front and
    [D] is made of plain bytes. *)
Lemma until_quote_escape_identity (D : std_string) (k : nat) :
  until_quote (repeat bs k ++ json_escape D) = D ->
  k = O /\ forallb plain D = true.
Proof.
  revert k. induction D as [|c D IH]; intros k H.
  - destruct k; [split; reflexivity|]. discriminate H.
  - unfold json_escape in H. cbn [flat_map] in H.
    fold (json_escape D) in H.
    destruct k as [|k].
    + cbn [repeat app] in H. split; [reflexivity|].
      destruct (plain c) eqn:Hc.
      * rewrite (escape_byte_plain c Hc) in H. cbn [app until_quote] in H.
        rewrite (plain_eqb_quote c Hc) in H. injection H as H.
        destruct (IH 0%nat H) as [_ HD]. cbn [forallb]. rewrite Hc, HD.
        reflexivity.
      * exfalso. destruct (escape_byte_not_plain c Hc) as [rest Hrest].
        rewrite Hrest in H. cbn [app] in H.
        rewrite until_quote_backslash in H. injection H as <- H.
        change (escape_byte bs) with [bs; bs] in Hrest.
        injection Hrest as <-.
        destruct (IH 1%nat H) as [Hk _]. discriminate Hk.
    + exfalso. cbn [repeat app] in H.
      rewrite until_quote_backslash in H. injection H as <- H.
      change (escape_byte bs) with [bs; bs] in H.
      replace (repeat bs k ++ [bs; bs] ++ json_escape D)
        with (repeat bs (S (S k)) ++ json_escape D) in H.
      * destruct (IH _ H) as [Hk _]. discriminate Hk.
      * change [bs; bs] with (repeat bs 2).
        rewrite app_assoc, <- repeat_app.
        replace (k + 2)%nat with (S (S k)) by lia. reflexivity.
Qed.

(** X16.  A content delta comes through to the sink as it was emitted
    exactly when it needs no escaping: with a sink stored, the fragment
    of a delta [D] makes the handler call the sink with [D] if and only if
    [D] is not empty and made of plain bytes.  A delta with a double
    quote, a backslash, a line feed or any other control character
    reaches the sink altered, or cut, or not at all. *)
Theorem delta_through_iff_plain (w : MLCEngineWrapper) (cb : FnPtr)
    (D : std_string) :
  token_callback_ w = Some cb ->
  (events (processStreamResponse (fragment_containing D) w) = [EvSink cb D]
   <-> D <> [] /\ forallb plain D = true).
Proof.
  intros Hcb. rewrite (fragment_containing_forwarded w cb D Hcb).
  cbn [events fst snd]. split.
  - intros H.
    destruct (empty (until_quote (json_escape D))) eqn:Hempty;
      [discriminate H|].
    injection H as H.
    rewrite c_str_without_nul in H.
    + destruct (until_quote_escape_identity D 0 H) as [_ HD].
      split; [|exact HD]. intros ->. discriminate Hempty.
    + intros Hin. apply until_quote_subset in Hin.
      exact (json_escape_no_nul D Hin).
  - intros [Hne HD].
    rewrite json_escape_plain, until_quote_plain, c_str_plain by done.
    destruct D; [congruence | reflexivity].
Qed.

Lemma delta_through_iff_plain_witness :
  token_callback_ (listening_wrapper 1%positive) = Some 1%positive
  /\ events (processStreamResponse (fragment_containing (lit "hello"))
               (listening_wrapper 1%positive))
     = [EvSink 1%positive (lit "hello")].
Proof.
  split; [reflexivity|].
  apply (delta_through_iff_plain (listening_wrapper 1%positive) 1%positive
           (lit "hello") eq_refl).
  split; [discriminate | reflexivity].
Defined.
